(** * helmhub-io/charts: the migration and tag-matching tools

    A shallow embedding of [tools/match_available_image_tags.py] and
    [tools/migrate_helmhubio_to_helmhubio.py], and the properties of the
    rewrite-rule engine and of the tag matcher that hold (or fail) on it.

    Conventions of the embedding:
    - a Python [str] is a [list ascii]; the texts the tools handle are taken
      to be ASCII, which is what every literal and every pattern of the two
      scripts is;
    - an operation that may raise returns a [Py.res];
    - a parsed YAML or JSON document is a [value]; a mapping is an
      association list in insertion order, as a Python [dict] is;
    - the file tree is a finite map from relative paths to file contents,
      and a function that reads or writes files passes it along;
    - the parsers and printers of YAML and JSON are parameters of the
      functions on files.

    Of the first script the embedding has [find_best_matching_tag]; of the
    second one the three structural rewriters, the text rewriter and
    [main] with the optional renaming of the top folder. The fetching of
    tags, the line-based update of tags and [--rename-all] are left out. *)

From Stdlib Require Import Ascii String List ZArith QArith.QArith_base Lia.
From stdpp Require Import base list gmap strings.

Abbreviation str := (list ascii).
Coercion list_ascii_of_string : string >-> list.

Local Open Scope string_scope.
Local Open Scope list_scope.

(** A list of string literals as a list of [str]. *)
Definition strs (l : list string) : list str := map list_ascii_of_string l.

(* ================================================================== *)
(** * Python primitives used by the two scripts *)
(* ================================================================== *)

Module Py.

Inductive exn := IndexError | AttributeError | TypeError | RecursionError.

Inductive res (A : Type) :=
| Ok (a : A)
| Raise (e : exn).
Arguments Ok {A} a.
Arguments Raise {A} e.

Definition bind {A B} (m : res A) (k : A -> res B) : res B :=
  match m with
  | Ok a => k a
  | Raise e => Raise e
  end.

(** [l[i]] *)
Definition index {A} (l : list A) (i : nat) : res A :=
  match l !! i with
  | Some x => Ok x
  | None => Raise IndexError
  end.

(** [s.startswith(p)] *)
Fixpoint startswith (s p : str) {struct p} : bool :=
  match p, s with
  | [], _ => true
  | _ :: _, [] => false
  | a :: p', b :: s' => if Ascii.eqb a b then startswith s' p' else false
  end.

(** [sub in s] on strings *)
Fixpoint contains (s sub : str) : bool :=
  startswith s sub ||
  match s with
  | [] => false
  | _ :: s' => contains s' sub
  end.

(** [s.split(sep)] for a one-character separator: never the empty list. *)
Fixpoint split (sep : ascii) (s : str) : list str :=
  match s with
  | [] => [[]]
  | c :: s' =>
      if Ascii.eqb c sep then [] :: split sep s'
      else match split sep s' with
           | w :: ws => (c :: w) :: ws
           | [] => [[c]]
           end
  end.

(** [s.split(sep, maxsplit)] *)
Fixpoint splitn (sep : ascii) (maxsplit : nat) (s : str) : list str :=
  match maxsplit with
  | O => [s]
  | S n =>
      match s with
      | [] => [[]]
      | c :: s' =>
          if Ascii.eqb c sep then [] :: splitn sep n s'
          else match splitn sep maxsplit s' with
               | w :: ws => (c :: w) :: ws
               | [] => [[c]]
               end
      end
  end.

(** [sep.join(parts)] *)
Fixpoint join (sep : str) (parts : list str) : str :=
  match parts with
  | [] => []
  | [w] => w
  | w :: ws => w ++ sep ++ join sep ws
  end.

(** [s.lower()] on ASCII *)
Definition lower_char (c : ascii) : ascii :=
  let n := nat_of_ascii c in
  if (65 <=? n)%nat && (n <=? 90)%nat then ascii_of_nat (n + 32) else c.

Definition lower (s : str) : str := map lower_char s.

(** [s.rfind(c)]: the index of the last [c], if any *)
Fixpoint rfind (c : ascii) (s : str) : option nat :=
  match s with
  | [] => None
  | a :: s' =>
      match rfind c s' with
      | Some i => Some (S i)
      | None => if Ascii.eqb a c then Some O else None
      end
  end.

End Py.

#[global] Instance res_bind : MBind Py.res := fun _ _ k m => Py.bind m k.
#[global] Instance res_ret : MRet Py.res := fun _ a => Py.Ok a.

(* ================================================================== *)
(** * Pattern substitution: [re.sub] and [str.replace] *)
(* ================================================================== *)

Module Re.

(** A compiled pattern together with its replacement template. At a
    position of the text it is given the character before the position
    ([None] at the start) and the text from the position on, and answers
    with the length of the match there and the text that replaces it. *)
Definition matcher := option ascii -> str -> option (nat * str).

(** The scan of [re.sub] and of [str.replace]: leftmost matches, left to
    right, never overlapping; [skip] counts the characters of the current
    match still to be passed over. No pattern of the scripts matches the
    empty string. *)
Fixpoint sub_from (m : matcher) (skip : nat) (prev : option ascii) (s : str) : str :=
  match s with
  | [] => []
  | c :: s' =>
      match skip with
      | S k => sub_from m k (Some c) s'
      | O =>
          match m prev s with
          | Some (S k, r) => r ++ sub_from m k (Some c) s'
          | _ => c :: sub_from m O (Some c) s'
          end
      end
  end.

Definition sub (m : matcher) (s : str) : str := sub_from m O None s.

(** A literal pattern (every metacharacter escaped). *)
Definition literal (old new : str) : matcher :=
  fun _ s => if Py.startswith s old then Some (length old, new) else None.

(** [s.replace(old, new)] for a non-empty [old] *)
Definition replace (old new : str) (s : str) : str := sub (literal old new) s.

(** [s] without its prefix [p], when it has it *)
Fixpoint strip (p s : str) {struct p} : option str :=
  match p, s with
  | [], _ => Some s
  | _ :: _, [] => None
  | a :: p', b :: s' => if Ascii.eqb a b then strip p' s' else None
  end.

(** A group of literal alternatives [(a|b|...)]: the first alternative
    that matches, and the rest of the text. No alternative of the scripts
    is a prefix of another one of the same group, so that at most one
    matches and backtracking never changes the result. *)
Fixpoint alt (alts : list str) (s : str) : option (str * str) :=
  match alts with
  | [] => None
  | a :: alts' =>
      match strip a s with
      | Some rest => Some (a, rest)
      | None => alt alts' s
      end
  end.

(** [\w] *)
Definition is_word (c : ascii) : bool :=
  let n := nat_of_ascii c in
  ((48 <=? n)%nat && (n <=? 57)%nat) || ((65 <=? n)%nat && (n <=? 90)%nat)
  || ((97 <=? n)%nat && (n <=? 122)%nat) || (n =? 95)%nat.

Definition is_word_opt (c : option ascii) : bool :=
  match c with
  | Some c => is_word c
  | None => false
  end.

(** [\b] between the character before and the character after *)
Definition word_boundary (before after : option ascii) : bool :=
  xorb (is_word_opt before) (is_word_opt after).

(** [[a-z0-9_.-]] *)
Definition is_lower_name_char (c : ascii) : bool :=
  let n := nat_of_ascii c in
  ((97 <=? n)%nat && (n <=? 122)%nat) || ((48 <=? n)%nat && (n <=? 57)%nat)
  || (n =? 95)%nat || (n =? 46)%nat || (n =? 45)%nat.

(** [[A-Za-z0-9_.-]] *)
Definition is_name_char (c : ascii) : bool :=
  is_lower_name_char c || ((65 <=? nat_of_ascii c)%nat && (nat_of_ascii c <=? 90)%nat).

(** The longest prefix of characters of a class: a greedy [[...]*]. *)
Fixpoint span (cls : ascii -> bool) (s : str) : str :=
  match s with
  | [] => []
  | c :: s' => if cls c then c :: span cls s' else []
  end.

(** [/(tree|blob)/(main|master)/bitnami/] replaced by
    [/\1/\2/helmhubio/] *)
Definition tree_blob_path : matcher :=
  fun _ s =>
    s1 ← strip "/" s;
    '(g1, s2) ← alt (strs ["tree"; "blob"]) s1;
    s3 ← strip "/" s2;
    '(g2, s4) ← alt (strs ["main"; "master"]) s3;
    _ ← strip "/bitnami/" s4;
    Some (length ("/" ++ g1 ++ "/" ++ g2 ++ "/bitnami/"),
          "/" ++ g1 ++ "/" ++ g2 ++ "/helmhubio/").

(** [\bBitnami\b] replaced by [HelmHubIO] *)
Definition brand_word : matcher :=
  fun prev s =>
    if word_boundary prev (head s) then
      rest ← strip "Bitnami" s;
      if word_boundary (Some "i"%char) (head rest)
      then Some (length ("Bitnami" : str), ("HelmHubIO" : str))
      else None
    else None.

(** [\bbitnami/(cls+)] replaced by [new_ns/\1] *)
Definition namespace_mention (cls : ascii -> bool) (new_ns : str) : matcher :=
  fun prev s =>
    if word_boundary prev (head s) then
      rest ← strip "bitnami/" s;
      let name := span cls rest in
      match name with
      | [] => None
      | _ :: _ => Some (length ("bitnami/" ++ name), new_ns ++ "/" ++ name)
      end
    else None.

(** A matcher is well formed when a match is never empty and lies within
    the text. *)
Definition wf_matcher (m : matcher) : Prop :=
  ∀ prev s n r, m prev s = Some (n, r) → (0 < n ≤ length s)%nat.

(** The character before the position that follows [x]. *)
Definition prev_after (prev : option ascii) (x : str) : option ascii :=
  match last x with
  | Some c => Some c
  | None => prev
  end.

(** Several literal patterns, tried in this order at a position, each
    with its replacement. *)
Fixpoint multi (rules : list (str * str)) : matcher :=
  fun prev s =>
    match rules with
    | [] => None
    | (p, r) :: rules' =>
        if Py.startswith s p then Some (length p, r) else multi rules' prev s
    end.

(** The four literal forms of [tree_blob_path]. *)
Definition tree_blob_rules : list (str * str) :=
  [ ("/tree/main/bitnami/" : str, "/tree/main/helmhubio/" : str);
    ("/tree/master/bitnami/" : str, "/tree/master/helmhubio/" : str);
    ("/blob/main/bitnami/" : str, "/blob/main/helmhubio/" : str);
    ("/blob/master/bitnami/" : str, "/blob/master/helmhubio/" : str) ].

(** ** Checks on a table of rules

    Whether a rule can bring about an occurrence of a word [u] that was not
    in the text is a matter of how [u] overlaps the replacements; the
    checks below decide it on the strings of the table. *)

(** Two strings that differ at a position that both have. *)
Fixpoint clash (a b : str) : bool :=
  match a, b with
  | x :: a', y :: b' => if Ascii.eqb x y then clash a' b' else true
  | _, _ => false
  end.

(** The non-empty suffixes of a string. *)
Fixpoint tails (s : str) : list str :=
  match s with
  | [] => []
  | _ :: s' => s :: tails s'
  end.

(** A prefix [u] of the substituted text is a prefix of the text: where a
    replacement could start within [u], it clashes with the rest of [u], or
    the rest of [u] starts the pattern as it starts the replacement. *)
Definition reflects (rules : list (str * str)) (u : str) : bool :=
  forallb (fun u2 =>
             forallb (fun '(p, r) =>
                        clash r u2 || (Py.startswith r u2 && Py.startswith p u2))
                     rules)
          (tails u).

(** No occurrence of [u] starts within a replacement: from where it could
    start, the replacement clashes with [u]; or the replacement ends within
    [u], and then the pattern with the rest of [u] after it would hold a
    word of [forbidden]. *)
Definition inside_ok (rules : list (str * str)) (u : str) (forbidden : list str) : bool :=
  forallb (fun '(p, r) =>
             forallb (fun r' =>
                        clash r' u
                        || (Py.startswith u r' && (length r' <? length u)%nat
                            && reflects rules (drop (length r') u)
                            && existsb (fun f => Py.contains (p ++ drop (length r') u) f)
                                       forbidden))
                     (tails r))
          rules.

(** A table whose patterns are not empty. *)
Definition patterns_nonempty (rules : list (str * str)) : bool :=
  forallb (fun '(p, _) => match p with [] => false | _ :: _ => true end) rules.

(** A table keeps a word out of the text that it substitutes. *)
Definition keeps_out (forbidden : list str) (rules : list (str * str)) (u : str) : bool :=
  match u with
  | [] => false
  | _ :: _ => reflects rules u && inside_ok rules u forbidden
  end.


(** The tables applied one after the other. *)
Definition apply_tables (tables : list (list (str * str))) (text : str) : str :=
  foldl (fun text rules => sub (multi rules) text) text tables.


(** A text and what a scan made of it, for a scan that replaces patterns
    of a table of literal rules at the positions of its choice and copies
    the other characters. *)
Inductive rewritten (rules : list (str * str)) : str → str → Prop :=
| rewritten_nil : rewritten rules [] []
| rewritten_rule (p r rest out : str) :
    (p, r) ∈ rules → rewritten rules rest out → rewritten rules (p ++ rest) (r ++ out)
| rewritten_copy (c : ascii) (s out : str) :
    rewritten rules s out → rewritten rules (c :: s) (c :: out).

(** The number of [/] in a text. *)
Definition slashes (s : str) : nat := length (List.filter (Ascii.eqb "/") s).

(** The part of a string after its last [/] (the whole string when it
    has none): the base name of an image coordinate. *)
Definition base_name (s : str) : str :=
  foldl (fun acc c => if Ascii.eqb c "/" then [] else acc ++ [c]) [] s.

End Re.

(* ================================================================== *)
(** * tools/match_available_image_tags.py *)
(* ================================================================== *)

Module TagMatcher.

(** The loop that collects the tags of the same major.minor version. *)
Definition collect_candidates (major_minor : str) (available_tags : list str) : list str :=
  foldl (fun candidates tag =>
           if Py.startswith tag major_minor then candidates ++ [tag] else candidates)
        [] available_tags.

(** The loop over the tags of the same major version, which returns from
    the function at the first hit. *)
Fixpoint first_same_major (major_dot : str) (available_tags : list str) : option str :=
  match available_tags with
  | [] => None
  | tag :: rest =>
      if Py.startswith tag major_dot then Some tag
      else first_same_major major_dot rest
  end.

Definition find_best_matching_tag (missing_tag : str) (available_tags : list str)
  : Py.res (option str) :=
  missing_version ← Py.index (Py.split "-" missing_tag) 0;
  if bool_decide (missing_tag ∈ available_tags) then Py.Ok (Some missing_tag)
  else
    let major_minor := Py.join "." (take 2 (Py.split "." missing_version)) in
    let candidates := collect_candidates major_minor available_tags in
    match candidates with
    | _ :: _ => c ← Py.index candidates 0; Py.Ok (Some c)
    | [] =>
        major ← Py.index (Py.split "." missing_version) 0;
        match first_same_major (major ++ ".") available_tags with
        | Some tag => Py.Ok (Some tag)
        | None =>
            match available_tags with
            | _ :: _ => t ← Py.index available_tags 0; Py.Ok (Some t)
            | [] => Py.Ok None
            end
        end
    end.

(** ** The resolution policy as the specification words it *)

Inductive rule := exact | same_minor | same_major | latest_fallback | none.

Record tag_match_result := {
  matched_tag : option str;
  rule_applied : rule
}.

(** The substring of a tag up to its first [sep], not including it. *)
Fixpoint before_first (sep : ascii) (s : str) : str :=
  match s with
  | [] => []
  | c :: s' => if Ascii.eqb c sep then [] else c :: before_first sep s'
  end.

Definition version_core (missing_tag : str) : str := before_first "-" missing_tag.

(** The first two dot-separated components of the version core. *)
Definition major_minor_of (missing_tag : str) : str :=
  Py.join "." (take 2 (Py.split "." (version_core missing_tag))).

(** The first dot-separated component of the version core. *)
Definition major_of (missing_tag : str) : str := before_first "." (version_core missing_tag).

(** The first tag, in list order, that starts with [p]. *)
Definition first_starting_with (p : str) (tags : list str) : option str :=
  snd <$> list_find (fun tag => Py.startswith tag p = true) tags.

Definition resolve (missing_tag : str) (available_tags : list str) : tag_match_result :=
  if decide (missing_tag ∈ available_tags)
  then {| matched_tag := Some missing_tag; rule_applied := exact |}
  else match first_starting_with (major_minor_of missing_tag) available_tags with
       | Some tag => {| matched_tag := Some tag; rule_applied := same_minor |}
       | None =>
           match first_starting_with (major_of missing_tag ++ ".") available_tags with
           | Some tag => {| matched_tag := Some tag; rule_applied := same_major |}
           | None =>
               match head available_tags with
               | Some tag => {| matched_tag := Some tag; rule_applied := latest_fallback |}
               | None => {| matched_tag := None; rule_applied := none |}
               end
           end
       end.

End TagMatcher.

(* ================================================================== *)
(** * Parsed documents *)
(* ================================================================== *)

Module Doc.

(** What [ruamel.yaml] and [json] hand back: scalars, sequences and
    mappings. A mapping keeps its entries in insertion order; its keys
    are strings (a key of another scalar type stands as its text). *)
#[local] Unset Elimination Schemes.
Inductive value :=
| VNull
| VBool (b : bool)
| VNum (q : Q)
| VStr (s : str)
| VList (items : list value)
| VDict (entries : list (str * value)).
#[local] Set Elimination Schemes.

Definition dict := list (str * value).

(** [bool(v)] *)
Definition truthy (v : value) : bool :=
  match v with
  | VNull => false
  | VBool b => b
  | VNum q => negb (Qeq_bool q 0)
  | VStr s => negb (bool_decide (s = []))
  | VList l => match l with [] => false | _ :: _ => true end
  | VDict d => match d with [] => false | _ :: _ => true end
  end.

(** [d.get(k)]; [None] stands for Python's [None] of a missing key *)
Fixpoint get (k : str) (d : dict) : option value :=
  match d with
  | [] => None
  | (k', v) :: d' => if bool_decide (k' = k) then Some v else get k d'
  end.

(** [d[k] = v]: in place for a key that is there, at the end otherwise *)
Fixpoint set (k : str) (v : value) (d : dict) : dict :=
  match d with
  | [] => [(k, v)]
  | (k', v') :: d' =>
      if bool_decide (k' = k) then (k', v) :: d' else (k', v') :: set k v d'
  end.


(** The nesting depth of a document. *)
Fixpoint depth (v : value) : nat :=
  match v with
  | VList l => S (foldr (fun x n => Nat.max (depth x) n) O l)
  | VDict d => S (foldr (fun kv n => Nat.max (depth kv.2) n) O d)
  | _ => O
  end.

End Doc.

Export Doc(value(..)).

(* ================================================================== *)
(** * tools/migrate_helmhubio_to_helmhubio.py *)
(* ================================================================== *)

(** The file tree below [ROOT]: the content of every file, by the
    components of its path relative to [ROOT]. *)
Abbreviation tree := (gmap (list str) str).

Module Migrate.

Import Py Doc.

(** [SAFE_TEXT_PATTERNS] *)
Definition SAFE_TEXT_PATTERNS : list Re.matcher :=
  [ Re.literal "oci://registry-1.docker.io/bitnamicharts"
               "oci://registry-1.docker.io/helmhubiocharts";
    Re.literal "docker.io/bitnami/" "docker.io/helmhubio/";
    Re.literal "docker.io/bitnamilegacy/" "docker.io/helmhubio/";
    Re.literal "github.com/bitnami/charts" "github.com/helmhub-io/charts";
    Re.tree_blob_path ].

(** [README_BRAND_PATTERNS] *)
Definition README_BRAND_PATTERNS : list Re.matcher := [ Re.brand_word ].

(** [for rx, repl in patterns: text = rx.sub(repl, text)] *)
Definition apply_patterns (patterns : list Re.matcher) (text : str) : str :=
  foldl (fun text rx => Re.sub rx text) text patterns.

(** ** [update_chart_yaml]: the fields of a chart's metadata *)

(** The two replacements made on an image reference of
    [annotations.images]. *)
Definition rewrite_image_ref (item : str) : str :=
  let new := Re.replace "docker.io/helmhubio/" "docker.io/helmhubio/" item in
  Re.replace "docker.io/helmhubiolegacy/" "docker.io/helmhubio/" new.

(** [new_images != images] for the list built by the loop: an item that
    is no string is the object it was, a string is compared by value. *)
Fixpoint items_differ (new_items items : list value) : bool :=
  match new_items, items with
  | [], [] => false
  | VStr a :: new_items', VStr b :: items' =>
      negb (bool_decide (a = b)) || items_differ new_items' items'
  | _ :: new_items', _ :: items' => items_differ new_items' items'
  | _, _ => true
  end.

(** A loop that rebuilds a list, rewriting its strings with [f] and
    raising the flag at every string that [f] alters. *)
Definition rewrite_strings (f : str -> str) (items : list value) (changed : bool)
  : list value * bool :=
  foldl (fun '(new_items, changed) item =>
           match item with
           | VStr s =>
               let new := f s in
               (new_items ++ [VStr new],
                if bool_decide (new = s) then changed else true)
           | _ => (new_items ++ [item], changed)
           end)
        ([], changed) items.

Definition chart_annotations (data : dict) (changed : bool) : res (dict * bool) :=
  annotations ←
    match get "annotations" data with
    | Some v =>
        if truthy v
        then match v with
             | VDict a => Ok a
             | _ => Raise AttributeError
             end
        else Ok []
    | None => Ok []
    end;
  match get "images" annotations with
  | Some (VList images) =>
      let '(new_images, changed) := rewrite_strings rewrite_image_ref images changed in
      if items_differ new_images images
      then Ok (set "annotations" (VDict (set "images" (VList new_images) annotations)) data,
               changed)
      else Ok (data, changed)
  | Some (VStr images) =>
      let new_images := rewrite_image_ref images in
      if bool_decide (new_images = images) then Ok (data, changed)
      else Ok (set "annotations" (VDict (set "images" (VStr new_images) annotations)) data,
               true)
  | _ => Ok (data, changed)
  end.

(** The body of the loop over the dependencies. *)
Definition rewrite_dependency (dep : value) (changed : bool) : value * bool :=
  match dep with
  | VDict d =>
      match get "repository" d with
      | Some (VStr repo) =>
          let new_repo :=
            Re.replace "oci://registry-1.docker.io/helmhubiocharts"
                       "oci://registry-1.docker.io/helmhubiocharts" repo in
          if bool_decide (new_repo = repo) then (dep, changed)
          else (VDict (set "repository" (VStr new_repo) d), true)
      | _ => (dep, changed)
      end
  | _ => (dep, changed)
  end.

(** A loop that updates the entries of a list in place. *)
Fixpoint update_each (f : value -> bool -> value * bool) (items : list value) (changed : bool)
  : list value * bool :=
  match items with
  | [] => ([], changed)
  | item :: items' =>
      let '(item, changed) := f item changed in
      let '(items', changed) := update_each f items' changed in
      (item :: items', changed)
  end.

(** [for dep in (data.get("dependencies") or [])]: a mapping is iterated
    by its keys and a string by its characters, none of which is a
    mapping; another true scalar is not iterable. *)
Definition chart_dependencies (data : dict) (changed : bool) : res (dict * bool) :=
  match get "dependencies" data with
  | Some (VList deps) =>
      let '(deps, changed) := update_each rewrite_dependency deps changed in
      Ok (set "dependencies" (VList deps) data, changed)
  | Some (VDict _) | Some (VStr _) | None => Ok (data, changed)
  | Some v => if truthy v then Raise TypeError else Ok (data, changed)
  end.

Definition chart_home (data : dict) (changed : bool) : dict * bool :=
  match get "home" data with
  | Some (VStr home) =>
      let new_home :=
        if contains home "bitnami" then ("https://github.com/helmhub-io/charts" : str)
        else home in
      let new_home :=
        Re.replace "github.com/helmhub-io/charts" "github.com/helmhub-io/charts" new_home in
      let new_home := Re.sub Re.tree_blob_path new_home in
      if bool_decide (new_home = home) then (data, changed)
      else (set "home" (VStr new_home) data, true)
  | _ => (data, changed)
  end.

Definition rewrite_source (s : str) : str :=
  let s2 := Re.replace "github.com/helmhub-io/charts" "github.com/helmhub-io/charts" s in
  Re.sub Re.tree_blob_path s2.

Definition chart_sources (data : dict) (changed : bool) : dict * bool :=
  match get "sources" data with
  | Some (VList sources) =>
      let '(new_sources, changed) := rewrite_strings rewrite_source sources changed in
      (set "sources" (VList new_sources) data, changed)
  | _ => (data, changed)
  end.

(** The body of the loop over the maintainers. *)
Definition rewrite_maintainer (m : value) (changed : bool) : value * bool :=
  match m with
  | VDict d =>
      match get "url" d with
      | Some (VStr old) =>
          let new :=
            Re.replace "github.com/helmhub-io/charts" "github.com/helmhub-io/charts" old in
          if bool_decide (new = old) then (m, changed)
          else (VDict (set "url" (VStr new) d), true)
      | _ => (m, changed)
      end
  | _ => (m, changed)
  end.

Definition chart_maintainers (data : dict) (changed : bool) : dict * bool :=
  match get "maintainers" data with
  | Some (VList maintainers) =>
      let '(maintainers, changed) := update_each rewrite_maintainer maintainers changed in
      (set "maintainers" (VList maintainers) data, changed)
  | _ => (data, changed)
  end.

Definition chart_tags (data : dict) (changed : bool) : dict * bool :=
  match get "tags" data with
  | Some (VList tags) =>
      let '(new_tags, changed) :=
        rewrite_strings (Re.replace "bitnami" "helmhubio") tags changed in
      (set "tags" (VList new_tags) data, changed)
  | _ => (data, changed)
  end.

(** [update_chart_yaml] between the load and the dump: the rewritten
    document and the flag [changed]. *)
Definition update_chart_yaml_data (data : value) : res (value * bool) :=
  match data with
  | VDict data =>
      let changed := false in
      '(data, changed) ← chart_annotations data changed;
      '(data, changed) ← chart_dependencies data changed;
      let '(data, changed) := chart_home data changed in
      let '(data, changed) := chart_sources data changed in
      let '(data, changed) := chart_maintainers data changed in
      let '(data, changed) := chart_tags data changed in
      Ok (VDict data, changed)
  | _ => Ok (data, false)
  end.

(** ** [update_values_yaml] *)

(** The four branches on [image.repository]; [None] when none is taken. *)
Definition rewrite_repository (repo : str) : res (option str) :=
  if startswith repo "bitnami/" then
    rest ← index (splitn "/" 1 repo) 1;
    Ok (Some ("helmhubio/" ++ rest))
  else if startswith repo "bitnamilegacy/" then
    rest ← index (splitn "/" 1 repo) 1;
    Ok (Some ("helmhubio/" ++ rest))
  else if startswith repo "docker.io/helmhubio/" then
    Ok (Some (Re.replace "docker.io/helmhubio/" "docker.io/helmhubio/" repo))
  else if startswith repo "docker.io/helmhubiolegacy/" then
    Ok (Some (Re.replace "docker.io/helmhubiolegacy/" "docker.io/helmhubio/" repo))
  else Ok None.

(** The [image] branch of [visit] on a mapping. *)
Definition visit_image (obj : dict) (changed : bool) : res (dict * bool) :=
  match get "image" obj with
  | Some (VDict img) =>
      match get "repository" img with
      | Some (VStr repo) =>
          new ← rewrite_repository repo;
          match new with
          | Some new =>
              Ok (set "image" (VDict (set "repository" (VStr new) img)) obj, true)
          | None => Ok (obj, changed)
          end
      | _ => Ok (obj, changed)
      end
  | _ => Ok (obj, changed)
  end.

(** [for k, v in list(obj.items()): obj[k] = f(v)] *)
Fixpoint each_item (f : value -> bool -> res (value * bool)) (obj : dict) (changed : bool)
  : res (dict * bool) :=
  match obj with
  | [] => Ok ([], changed)
  | (k, v) :: obj' =>
      '(v, changed) ← f v changed;
      '(obj', changed) ← each_item f obj' changed;
      Ok ((k, v) :: obj', changed)
  end.

(** [for i, v in enumerate(obj): obj[i] = f(v)] *)
Fixpoint each_element (f : value -> bool -> res (value * bool)) (obj : list value)
    (changed : bool) : res (list value * bool) :=
  match obj with
  | [] => Ok ([], changed)
  | v :: obj' =>
      '(v, changed) ← f v changed;
      '(obj', changed) ← each_element f obj' changed;
      Ok (v :: obj', changed)
  end.

(** [visit] of [update_values_yaml], with the non-local flag passed
    along. [fuel] bounds the depth of the recursion. *)
Fixpoint values_visit (fuel : nat) (obj : value) (changed : bool) : res (value * bool) :=
  match fuel with
  | O => Raise RecursionError
  | S fuel =>
      match obj with
      | VDict d =>
          '(d, changed) ← visit_image d changed;
          '(d, changed) ← each_item (values_visit fuel) d changed;
          Ok (VDict d, changed)
      | VList l =>
          '(l, changed) ← each_element (values_visit fuel) l changed;
          Ok (VList l, changed)
      | _ => Ok (obj, changed)
      end
  end.

(** [update_values_yaml] between the load and the dump. *)
Definition update_values_yaml_data (data : value) : res (value * bool) :=
  values_visit (S (depth data)) data false.

(** ** [update_values_schema_json] *)

(** What [visit] does to a string that is the value of a key. *)
Definition rewrite_schema_string (v : str) : res str :=
  let new := v in
  new ← (if startswith new "bitnami/" then
           rest ← index (splitn "/" 1 new) 1; Ok ("helmhubio/" ++ rest)
         else Ok new);
  new ← (if startswith new "bitnamilegacy/" then
           rest ← index (splitn "/" 1 new) 1; Ok ("helmhubio/" ++ rest)
         else Ok new);
  let new := Re.replace "docker.io/helmhubio/" "docker.io/helmhubio/" new in
  let new := Re.replace "docker.io/helmhubiolegacy/" "docker.io/helmhubio/" new in
  Ok new.

(** The body of the loop of [visit] over the items of a mapping. *)
Definition schema_item (visit : value -> bool -> res (value * bool)) (v : value)
    (changed : bool) : res (value * bool) :=
  match v with
  | VStr s =>
      new ← rewrite_schema_string s;
      if bool_decide (new = s) then Ok (v, changed) else Ok (VStr new, true)
  | _ => visit v changed
  end.

Fixpoint schema_visit (fuel : nat) (obj : value) (changed : bool) : res (value * bool) :=
  match fuel with
  | O => Raise RecursionError
  | S fuel =>
      match obj with
      | VDict d =>
          '(d, changed) ← each_item (schema_item (schema_visit fuel)) d changed;
          Ok (VDict d, changed)
      | VList l =>
          '(l, changed) ← each_element (schema_visit fuel) l changed;
          Ok (VList l, changed)
      | _ => Ok (obj, changed)
      end
  end.

(** [update_values_schema_json] between the load and the dump. *)
Definition update_values_schema_json_data (data : value) : res (value * bool) :=
  schema_visit (S (depth data)) data false.

(** ** The rewriters as functions of the document *)

(** What [rewrite_schema_string] computes: the bare-namespace prefix is
    replaced first, then the registry-qualified legacy prefix wherever it
    stands. *)
Definition schema_prefix (v : str) : str :=
  if startswith v "bitnami/" then "helmhubio/" ++ drop 8 v
  else if startswith v "bitnamilegacy/" then "helmhubio/" ++ drop 14 v
  else v.

Definition namespace_prefix_rewrite (v : str) : str :=
  Re.replace "docker.io/helmhubiolegacy/" "docker.io/helmhubio/" (schema_prefix v).

(** A document in which [f] is applied to every string that is the value
    of a key of a mapping, at any depth, also below sequences; every other
    scalar stays, also a string that is an element of a sequence. *)
Fixpoint rewrite_keyed_strings (f : str -> str) (v : value) : value :=
  match v with
  | VDict d =>
      VDict (map (fun '(k, x) =>
                    (k, match x with
                        | VStr s => VStr (f s)
                        | _ => rewrite_keyed_strings f x
                        end)) d)
  | VList l => VList (map (rewrite_keyed_strings f) l)
  | _ => v
  end.


(** A repository that names the registry before the namespace: the case
    of the last two branches of [visit]. *)
Definition registry_qualified (repo : str) : bool :=
  startswith repo "docker.io/helmhubio/" || startswith repo "docker.io/helmhubiolegacy/".

(** A repository for which [visit] takes one of its four branches. *)
Definition takes_branch (repo : str) : bool :=
  startswith repo "bitnami/" || startswith repo "bitnamilegacy/" || registry_qualified repo.


(** The image repositories of a values document: the strings that
    [visit] inspects, below a key [image] at a key [repository]. *)
Fixpoint image_repositories (v : value) : list str :=
  match v with
  | VDict d =>
      match get "image" d with
      | Some (VDict img) =>
          match get "repository" img with
          | Some (VStr repo) => [repo]
          | _ => []
          end
      | _ => []
      end
      ++ flat_map (fun '(_, x) => image_repositories x) d
  | VList l => flat_map image_repositories l
  | _ => []
  end.

(** [f] on a string, every other value as it is. *)
Definition on_string (f : str -> str) (v : value) : value :=
  match v with
  | VStr s => VStr (f s)
  | _ => v
  end.


(** The two fields of a chart's metadata that [update_chart_yaml] reads
    without a test of their type: [annotations] is a mapping or is false,
    [dependencies] can be iterated or is false. *)
Definition chart_shaped (data : value) : bool :=
  match data with
  | VDict d =>
      match get "annotations" d with
      | Some (VDict _) | None => true
      | Some v => negb (truthy v)
      end
      && match get "dependencies" d with
         | Some (VList _) | Some (VDict _) | Some (VStr _) | None => true
         | Some v => negb (truthy v)
         end
  | _ => true
  end.

(** ** The table of the text rules *)

(** [SAFE_TEXT_PATTERNS] as tables of literal rules. *)
Definition SAFE_TEXT_TABLES : list (list (str * str)) :=
  [ [("oci://registry-1.docker.io/bitnamicharts" : str,
      "oci://registry-1.docker.io/helmhubiocharts" : str)];
    [("docker.io/bitnami/" : str, "docker.io/helmhubio/" : str)];
    [("docker.io/bitnamilegacy/" : str, "docker.io/helmhubio/" : str)];
    [("github.com/bitnami/charts" : str, "github.com/helmhub-io/charts" : str)];
    Re.tree_blob_rules ].



(** ** [safe_text_replace] on a text *)

(** The rewriting of [safe_text_replace] between the read and the write;
    [in_github] is [".github" in str(path)]. *)
Definition safe_text (readme_mode in_github : bool) (orig : str) : str :=
  let text := apply_patterns SAFE_TEXT_PATTERNS orig in
  let text :=
    if readme_mode then
      let text := apply_patterns README_BRAND_PATTERNS text in
      Re.sub (Re.namespace_mention Re.is_lower_name_char "helmhubio") text
    else text in
  if in_github
  then Re.sub (Re.namespace_mention Re.is_name_char "helmhub-io") text
  else text.

(** ** The functions on files, and [main] *)

(** A rewriter writes the file that it is given, and no other. *)
Definition writes_own_path (f : list str → tree → res (tree * bool)) : Prop :=
  ∀ p fs fs' c, f p fs = Ok (fs', c) → ∀ q, q ≠ p → fs' !! q = fs !! q.

(** A rewriter of files that writes the file that it is given and no
    other, creates and deletes no file, and has written nothing when it
    answers [False]. *)
Definition keeps_to_its_file (f : list str → tree → res (tree * bool)) : Prop :=
  ∀ p fs fs' c,
    f p fs = Ok (fs', c) →
    (∀ q, q ≠ p → fs' !! q = fs !! q) ∧ dom fs' = dom fs ∧ (c = false → fs' = fs).

Section Files.

(** The parsers and printers of [ruamel.yaml] and [json]: a parser
    answers [None] where the library raises. *)
Variable yaml_load : str -> option value.
Variable yaml_dump : value -> str.
Variable json_loads : str -> option value.
Variable json_dumps : value -> str.

(** The components of the absolute path [ROOT]. *)
Variable root_parts : list str.

(** [str(path)] *)
Definition path_str (path : list str) : str := "/" ++ join "/" (root_parts ++ path).

(** [load_yaml(path)]: [None] when the file cannot be read or parsed *)
Definition load_yaml (path : list str) (fs : tree) : option value :=
  text ← fs !! path; yaml_load text.

Definition dump_yaml (data : value) (path : list str) (fs : tree) : tree :=
  <[path := yaml_dump data]> fs.

Definition update_chart_yaml (path : list str) (fs : tree) : res (tree * bool) :=
  match load_yaml path fs with
  | None => Ok (fs, false)
  | Some data =>
      '(data, changed) ← update_chart_yaml_data data;
      if changed : bool then Ok (dump_yaml data path fs, true) else Ok (fs, false)
  end.

Definition update_values_yaml (path : list str) (fs : tree) : res (tree * bool) :=
  match load_yaml path fs with
  | None => Ok (fs, false)
  | Some data =>
      '(data, changed) ← update_values_yaml_data data;
      if changed : bool then Ok (dump_yaml data path fs, true) else Ok (fs, false)
  end.

Definition update_values_schema_json (path : list str) (fs : tree) : res (tree * bool) :=
  match fs !! path ≫= json_loads with
  | None => Ok (fs, false)
  | Some data =>
      '(data, changed) ← update_values_schema_json_data data;
      if changed : bool then Ok (<[path := json_dumps data ++ [ascii_of_nat 10]]> fs, true)
      else Ok (fs, false)
  end.

Definition safe_text_replace (path : list str) (readme_mode : bool) (fs : tree)
  : tree * bool :=
  match fs !! path with
  | None => (fs, false)
  | Some orig =>
      let text := safe_text readme_mode (contains (path_str path) ".github") orig in
      if bool_decide (text = orig) then (fs, false)
      else (<[path := text]> fs, true)
  end.

(** [path.suffix] of a file name *)
Definition suffix (name : str) : str :=
  match rfind "." name with
  | Some i => if (0 <? i)%nat && (i <? length name - 1)%nat then drop i name else []
  | None => []
  end.

(** The files of the tree, as a walk lists them. *)
Definition files (fs : tree) : list (list str) := (map_to_list fs).*1.

(** [d.exists()] for a directory directly below [ROOT] *)
Definition top_exists (name : str) (fs : tree) : bool :=
  existsb (fun p => bool_decide (head p = Some name)) (files fs).

(** [tl.glob("*/" + name)] *)
Definition glob_chart_file (tl name : str) (fs : tree) : list (list str) :=
  List.filter (fun p => match p with
                        | [t; _; n] => bool_decide (t = tl) && bool_decide (n = name)
                        | _ => false
                        end) (files fs).

(** A loop that hands each path to a rewriter and records the paths
    for which the rewriter answers [True]. *)
Fixpoint for_each (f : list str -> tree -> res (tree * bool)) (paths : list (list str))
    (fs : tree) (changed_files : list str) : res (tree * list str) :=
  match paths with
  | [] => Ok (fs, changed_files)
  | path :: paths' =>
      '(fs, changed) ← f path fs;
      for_each f paths' fs (if changed : bool then changed_files ++ [path_str path]
                            else changed_files)
  end.

(** The names that the structure-aware pass owns. *)
Definition structured_names : list str :=
  strs ["Chart.yaml"; "values.yaml"; "values.schema.json"].

Definition text_suffixes : list str :=
  strs [".md"; ".tpl"; ".txt"; ".yaml"; ".yml"; ".json"; ".conf"; ""].

Definition skipped_dirs : list str := strs [".git"; ".venv"].

(** The directory of a file and its name. *)
Definition dir_of (path : list str) : list str := take (length path - 1) path.
Definition name_of (path : list str) : str := default [] (last path).

(** The files that the walk of step 2 hands to [safe_text_replace]. *)
Definition text_targets (fs : tree) : list (list str) :=
  List.filter (fun path =>
                 negb (existsb (fun part => bool_decide (part ∈ skipped_dirs))
                               (root_parts ++ dir_of path))
                 && bool_decide (lower (suffix (name_of path)) ∈ text_suffixes)
                 && negb (bool_decide (name_of path ∈ structured_names)))
              (files fs).

(** Step 1 of [main] for one top-level directory. *)
Definition structural_pass (tl : str) (st : tree * list str) : res (tree * list str) :=
  let '(fs, changed_files) := st in
  '(fs, changed_files) ←
    for_each update_chart_yaml (glob_chart_file tl "Chart.yaml" fs) fs changed_files;
  '(fs, changed_files) ←
    for_each update_values_yaml (glob_chart_file tl "values.yaml" fs) fs changed_files;
  for_each update_values_schema_json (glob_chart_file tl "values.schema.json" fs)
           fs changed_files.

(** Step 2 of [main]. *)
Definition text_pass (st : tree * list str) : res (tree * list str) :=
  let '(fs, changed_files) := st in
  for_each (fun path fs =>
              let readme_mode :=
                bool_decide (lower (suffix (name_of path)) = (".md" : str)) in
              Ok (safe_text_replace path readme_mode fs))
           (text_targets fs) fs changed_files.

(** [rename_top_folder]: the tree after it, and its answer. *)
Definition rename_top_folder (apply : bool) (fs : tree) : tree * bool :=
  if negb (top_exists "bitnami" fs) then (fs, false)
  else if top_exists "helmhubio" fs then (fs, false)
  else if apply then
    (list_to_map
       (map (fun '(p, c) =>
               match p with
               | t :: p' => if bool_decide (t = ("bitnami" : str))
                            then (("helmhubio" : str) :: p', c) else (p, c)
               | [] => (p, c)
               end) (map_to_list fs)),
     true)
  else (fs, true).

Record args := {
  apply : bool;
  rename_folders : bool
}.

Record outcome := {
  files_after : tree;
  changed_files : list str;
  renamed : bool
}.

(** [main], without the optional [--rename-all]. *)
Definition main (a : args) (fs : tree) : res outcome :=
  let top_levels :=
    List.filter (fun d => top_exists d fs) (strs ["bitnami"; "helmhubio"]) in
  st ← foldl (fun st tl => st ← st; structural_pass tl st) (Ok (fs, [])) top_levels;
  '(fs, changed_files) ← text_pass st;
  let '(fs, renamed) :=
    if rename_folders a then rename_top_folder (apply a) fs else (fs, false) in
  Ok {| files_after := fs; changed_files := changed_files; renamed := renamed |}.

(** What a pass over files does to the tree and to the report: the files
    outside [touched] are left, none is created or deleted, the report
    grows, and every file that has changed is in it. *)
Definition pass_ok (touched : list str → Prop) (st st' : tree * list str) : Prop :=
  (∀ q, ¬ touched q → st'.1 !! q = st.1 !! q)
  ∧ dom st'.1 = dom st.1
  ∧ (∀ x, x ∈ st.2 → x ∈ st'.2)
  ∧ (∀ q, st'.1 !! q ≠ st.1 !! q → path_str q ∈ st'.2).

(** The files that step 1 of [main] hands to a rewriter, for one
    top-level directory. *)
Definition chart_file_of (tl : str) (fs : tree) (q : list str) : Prop :=
  is_Some (fs !! q) ∧ ∃ dir name, q = [tl; dir; name] ∧ name ∈ structured_names.

End Files.

End Migrate.

(*DEFS-END*)
(* ================================================================== *)
(** * Facts about the Python primitives *)
(* ================================================================== *)

Section PyFacts.

Import Py.

Lemma startswith_spec (s p : str) : startswith s p = true ↔ ∃ k, s = p ++ k.
Proof.
  revert s. induction p as [|a p IH]; intros s; simpl.
  - split; [by exists s | done].
  - destruct s as [|b s].
    + split; [done | intros [k Hk]; discriminate Hk].
    + destruct (Ascii.eqb_spec a b) as [->|Hne].
      * rewrite IH. split; intros [k Hk]; exists k; congruence.
      * split; [done | intros [k Hk]; congruence].
Qed.

Lemma startswith_cons (a b : ascii) (s p : str) :
  startswith (b :: s) (a :: p) = if Ascii.eqb a b then startswith s p else false.
Proof. reflexivity. Qed.

Lemma startswith_app (p k : str) : startswith (p ++ k) p = true.
Proof. apply startswith_spec. eauto. Qed.

Lemma startswith_nil (s : str) : startswith s [] = true.
Proof. by destruct s. Qed.

Lemma split_head (sep : ascii) (s : str) :
  ∃ ws, split sep s = TagMatcher.before_first sep s :: ws.
Proof.
  induction s as [|c s [ws IH]]; simpl; [eauto|].
  destruct (Ascii.eqb c sep); [eauto|]. rewrite IH. eauto.
Qed.

Lemma index_head {A} (x : A) (l : list A) : index (x :: l) 0 = Ok x.
Proof. reflexivity. Qed.

End PyFacts.

(* ================================================================== *)
(** * Facts about pattern substitution *)
(* ================================================================== *)

Section ReFacts.

Import Py Re.

Lemma prev_after_cons prev c x : prev_after prev (c :: x) = prev_after (Some c) x.
Proof.
  unfold prev_after. destruct x as [|d x]; [reflexivity|].
  rewrite last_cons_cons. destruct (last (d :: x)) eqn:E; [done|].
  by apply last_None in E.
Qed.

Lemma sub_from_skip m prev (x rest : str) :
  sub_from m (length x) prev (x ++ rest) = sub_from m O (prev_after prev x) rest.
Proof.
  revert prev. induction x as [|c x IH]; intros prev; [done|].
  simpl. rewrite IH. by rewrite prev_after_cons.
Qed.

Lemma sub_from_match m prev (x rest r : str) :
  x ≠ [] → m prev (x ++ rest) = Some (length x, r) →
  sub_from m O prev (x ++ rest) = r ++ sub_from m O (prev_after prev x) rest.
Proof.
  destruct x as [|c x]; [done|]. intros _ Hm.
  change (sub_from m O prev ((c :: x) ++ rest))
    with (match m prev ((c :: x) ++ rest) with
          | Some (S k, r) => r ++ sub_from m k (Some c) (x ++ rest)
          | _ => c :: sub_from m O (Some c) (x ++ rest)
          end).
  rewrite Hm. simpl. by rewrite sub_from_skip, prev_after_cons.
Qed.

Lemma sub_from_no_match m prev c (s : str) :
  m prev (c :: s) = None →
  sub_from m O prev (c :: s) = c :: sub_from m O (Some c) s.
Proof. intros Hm. simpl. by rewrite Hm. Qed.

(** The scan, as an induction principle: what holds of the empty text, is
    kept over a match and is kept over a character that starts no match,
    holds of every text and its substitution. *)
Lemma sub_from_ind (m : matcher) (P : option ascii → str → str → Prop) :
  wf_matcher m →
  (∀ prev, P prev [] []) →
  (∀ prev x rest r res,
      x ≠ [] → m prev (x ++ rest) = Some (length x, r) →
      P (prev_after prev x) rest res → P prev (x ++ rest) (r ++ res)) →
  (∀ prev c s res,
      m prev (c :: s) = None → P (Some c) s res → P prev (c :: s) (c :: res)) →
  ∀ s prev, P prev s (sub_from m O prev s).
Proof.
  intros Hwf Hnil Hmatch Hstep s.
  remember (length s) as n eqn:Hn. revert s Hn.
  induction n as [n IH] using lt_wf_ind. intros s Hn prev.
  destruct s as [|c s]; [apply Hnil|].
  destruct (m prev (c :: s)) as [[k r]|] eqn:Hm.
  - destruct (Hwf _ _ _ _ Hm) as [Hk1 Hk2].
    assert (∃ x rest, c :: s = x ++ rest ∧ length x = k) as (x & rest & Hs & Hlen).
    { exists (take k (c :: s)), (drop k (c :: s)).
      split; [by rewrite take_drop|]. rewrite length_take. lia. }
    rewrite Hs in Hm, Hn |- *. subst k.
    assert (x ≠ []) as Hne by (intros ->; simpl in Hk1; lia).
    rewrite (sub_from_match _ _ _ _ _ Hne Hm).
    apply Hmatch; [done..|].
    eapply IH; [|done]. rewrite Hn, length_app. lia.
  - rewrite sub_from_no_match by done.
    apply Hstep; [done|]. eapply IH; [|done]. rewrite Hn. simpl. lia.
Qed.

Lemma literal_wf (old new : str) : old ≠ [] → wf_matcher (literal old new).
Proof.
  intros Hne prev s n r. unfold literal.
  destruct (startswith s old) eqn:Hs; [|done].
  apply startswith_spec in Hs as [k ->]. intros [= <- <-].
  rewrite length_app. destruct old; [done|]. simpl. lia.
Qed.

(** The scan of [str.replace], as an induction principle. *)
Lemma replace_ind (old new : str) (P : str → str → Prop) :
  old ≠ [] →
  P [] [] →
  (∀ rest res, P rest res → P (old ++ rest) (new ++ res)) →
  (∀ c s res, startswith (c :: s) old = false → P s res → P (c :: s) (c :: res)) →
  ∀ s, P s (replace old new s).
Proof.
  intros Hne Hnil Hmatch Hstep s. unfold replace, sub.
  apply (sub_from_ind (literal old new) (fun _ s r => P s r)); [by apply literal_wf|done|..].
  - intros prev x rest r res Hx Hm HP. unfold literal in Hm.
    destruct (startswith (x ++ rest) old) eqn:Hs; [|done].
    injection Hm as Hlen <-.
    apply startswith_spec in Hs as [k Hk].
    apply app_inj_1 in Hk as [-> ->]; [|done]. by apply Hmatch.
  - intros prev c s0 res Hm HP. apply Hstep; [|done].
    unfold literal in Hm. by destruct (startswith (c :: s0) old).
Qed.

Lemma replace_nil (old new : str) : replace old new [] = [].
Proof. reflexivity. Qed.

(** Replacing a string by itself changes nothing. *)
Lemma replace_same (old s : str) : old ≠ [] → replace old old s = s.
Proof.
  intros Hne. apply (replace_ind old old (fun s r => r = s)); [done..| |].
  - by intros rest res ->.
  - by intros c s0 res _ ->.
Qed.

Lemma base_name_from_slash (acc u t : str) :
  foldl (fun acc c => if Ascii.eqb c "/" then [] else acc ++ [c]) acc (u ++ "/"%char :: t)
  = base_name t.
Proof. by rewrite foldl_app. Qed.

Lemma replace_base_name_from (old new s acc : str) :
  foldl (fun acc c => if Ascii.eqb c "/" then [] else acc ++ [c]) acc
        (replace (old ++ "/") (new ++ "/") s)
  = foldl (fun acc c => if Ascii.eqb c "/" then [] else acc ++ [c]) acc s.
Proof.
  revert acc.
  apply (replace_ind (old ++ "/") (new ++ "/")
           (fun s r => ∀ acc,
              foldl (fun acc c => if Ascii.eqb c "/" then [] else acc ++ [c]) acc r
              = foldl (fun acc c => if Ascii.eqb c "/" then [] else acc ++ [c]) acc s)).
  - by destruct old.
  - done.
  - intros rest res IH acc. simpl. rewrite <- !app_assoc. simpl.
    rewrite !foldl_app. simpl. apply IH.
  - intros c s0 res _ IH acc. simpl. apply IH.
Qed.

(** A replacement of a pattern that ends in [/] by a text that ends in
    [/] keeps the base name. *)
Lemma replace_base_name (old new s : str) :
  base_name (replace (old ++ "/") (new ++ "/") s) = base_name s.
Proof. apply replace_base_name_from. Qed.







End ReFacts.

(* ================================================================== *)
(** * The tag matcher *)
(* ================================================================== *)

Section TagMatcherFacts.

Import Py TagMatcher.

Lemma first_starting_with_cons (p tag : str) (tags : list str) :
  first_starting_with p (tag :: tags)
  = if startswith tag p then Some tag else first_starting_with p tags.
Proof.
  unfold first_starting_with. simpl.
  destruct (startswith tag p); simpl; [done|].
  destruct (list_find _ tags) as [[i x]|]; done.
Qed.

(** What the first tag with a prefix is: the tags before it do not start
    with the prefix, and it does. *)
Lemma first_starting_with_Some (p tag : str) (tags : list str) :
  first_starting_with p tags = Some tag
  ↔ ∃ before after,
      tags = before ++ tag :: after
      ∧ startswith tag p = true
      ∧ ∀ t, t ∈ before → startswith t p = false.
Proof.
  induction tags as [|t tags IH].
  - split; [done|]. intros (before & after & H & _). by destruct before.
  - rewrite first_starting_with_cons.
    destruct (startswith t p) eqn:Ht.
    + split.
      * intros [= ->]. exists [], tags. split_and!; [done..|]. intros ? []%elem_of_nil.
      * intros ([|b before] & after & H & Htag & Hb).
        -- by injection H as -> _.
        -- injection H as -> _. rewrite Hb in Ht; [done | left].
    + rewrite IH. split.
      * intros (before & after & -> & Htag & Hb).
        exists (t :: before), after. split_and!; [done..|].
        intros x [->|?]%elem_of_cons; auto.
      * intros ([|b before] & after & H & Htag & Hb).
        -- injection H as -> _. congruence.
        -- injection H as -> ->. exists before, after. split_and!; [done..|].
           intros x Hx. apply Hb. by right.
Qed.

Lemma first_starting_with_None (p : str) (tags : list str) :
  first_starting_with p tags = None ↔ ∀ t, t ∈ tags → startswith t p = false.
Proof.
  induction tags as [|t tags IH].
  - split; [|done]. intros _ ? []%elem_of_nil.
  - rewrite first_starting_with_cons. destruct (startswith t p) eqn:Ht.
    + split; [done|]. intros H. rewrite H in Ht; [done | left].
    + rewrite IH. split.
      * intros H x [->|?]%elem_of_cons; auto.
      * intros H x Hx. apply H. by right.
Qed.

Lemma first_starting_with_elem (p tag : str) (tags : list str) :
  first_starting_with p tags = Some tag → tag ∈ tags.
Proof.
  intros (before & after & -> & _)%first_starting_with_Some.
  apply elem_of_app. right. left.
Qed.

Lemma collect_candidates_from (p : str) (tags acc : list str) :
  foldl (fun candidates tag =>
           if startswith tag p then candidates ++ [tag] else candidates) acc tags
  = acc ++ List.filter (fun tag => startswith tag p) tags.
Proof.
  revert acc. induction tags as [|t tags IH]; intros acc; simpl.
  - by rewrite app_nil_r.
  - rewrite IH. destruct (startswith t p); [|done].
    by rewrite <- app_assoc.
Qed.

Lemma collect_candidates_head (p : str) (tags : list str) :
  head (collect_candidates p tags) = first_starting_with p tags.
Proof.
  unfold collect_candidates. rewrite collect_candidates_from. simpl.
  induction tags as [|t tags IH]; [done|].
  rewrite first_starting_with_cons. simpl.
  destruct (startswith t p); done.
Qed.

Lemma first_same_major_spec (p : str) (tags : list str) :
  first_same_major p tags = first_starting_with p tags.
Proof.
  induction tags as [|t tags IH]; [done|].
  rewrite first_starting_with_cons. simpl. by rewrite IH.
Qed.

Lemma split_version (missing_tag : str) :
  ∃ ws, split "-" missing_tag = version_core missing_tag :: ws.
Proof. apply split_head. Qed.

Lemma split_major (missing_tag : str) :
  ∃ ws, split "." (version_core missing_tag) = major_of missing_tag :: ws.
Proof. apply split_head. Qed.

End TagMatcherFacts.

Section TagMatcherResults.

Import Py TagMatcher.

(** The function of the script computes the matched tag of the policy,
    and never raises. *)
Lemma find_best_matching_tag_resolve (missing_tag : str) (available_tags : list str) :
  find_best_matching_tag missing_tag available_tags
  = Ok (matched_tag (resolve missing_tag available_tags)).
Proof.
  unfold find_best_matching_tag, resolve.
  destruct (split_version missing_tag) as [ws ->].
  rewrite index_head. simpl.
  destruct (decide (missing_tag ∈ available_tags)) as [Hin|Hin].
  { by rewrite bool_decide_eq_true_2. }
  rewrite bool_decide_eq_false_2 by done.
  fold (major_minor_of missing_tag).
  pose proof (collect_candidates_head (major_minor_of missing_tag) available_tags) as Hc.
  destruct (collect_candidates _ available_tags) as [|c cs].
  - simpl in Hc. rewrite <- Hc.
    destruct (split_major missing_tag) as [ws' ->].
    rewrite index_head. simpl.
    rewrite first_same_major_spec.
    destruct (first_starting_with (_ ++ _) available_tags); [done|].
    by destruct available_tags.
  - simpl in Hc. by rewrite <- Hc.
Qed.

Lemma resolve_matched_elem (missing_tag tag : str) (available_tags : list str) :
  matched_tag (resolve missing_tag available_tags) = Some tag → tag ∈ available_tags.
Proof.
  unfold resolve.
  destruct (decide (missing_tag ∈ available_tags)) as [Hin|Hin]; simpl.
  { by intros [= <-]. }
  destruct (first_starting_with (major_minor_of _) _) eqn:H1; simpl.
  { intros [= <-]. by eapply first_starting_with_elem. }
  destruct (first_starting_with (_ ++ _) _) eqn:H2; simpl.
  { intros [= <-]. by eapply first_starting_with_elem. }
  destruct available_tags; simpl; [done|]. intros [= <-]. left.
Qed.

Lemma resolve_matched_none (missing_tag : str) (available_tags : list str) :
  matched_tag (resolve missing_tag available_tags) = None ↔ available_tags = [].
Proof.
  unfold resolve. split.
  - destruct (decide (missing_tag ∈ available_tags)) as [Hin|Hin]; simpl; [done|].
    destruct (first_starting_with (major_minor_of _) _); simpl; [done|].
    destruct (first_starting_with (_ ++ _) _); simpl; [done|].
    by destruct available_tags.
  - intros ->. rewrite decide_False; [done|]. apply not_elem_of_nil.
Qed.

End TagMatcherResults.

(** The examples of the specification. *)
Example resolve_exact :
  TagMatcher.find_best_matching_tag "12.1.1-debian-12-r1"
    (strs ["12.1.1-debian-12-r1"; "12.2.0-debian-12-r1"])
  = Py.Ok (Some ("12.1.1-debian-12-r1" : str)).
Proof. vm_compute. reflexivity. Qed.

Example resolve_same_minor :
  TagMatcher.find_best_matching_tag "12.1.1-debian-12-r1"
    (strs ["12.2.0-debian-12-r2"; "12.1.5-debian-12-r3"; "11.9.0-debian-12-r1"])
  = Py.Ok (Some ("12.1.5-debian-12-r3" : str)).
Proof. vm_compute. reflexivity. Qed.

Example resolve_latest :
  TagMatcher.find_best_matching_tag "9.0.0-debian-12-r1"
    (strs ["3.1.0-debian-12-r1"; "3.0.0-debian-12-r1"])
  = Py.Ok (Some ("3.1.0-debian-12-r1" : str)).
Proof. vm_compute. reflexivity. Qed.

Example resolve_empty :
  TagMatcher.find_best_matching_tag "12.1.1-debian-12-r1" [] = Py.Ok None.
Proof. vm_compute. reflexivity. Qed.

(** Claim C1. For every missing tag and every ordered list of available
    tags, [find_best_matching_tag] returns what the five-step policy of the
    specification selects: the missing tag itself when it is in the list
    (exact); otherwise the first tag of the list that starts with the first
    two dot-separated components of the part of the missing tag before its
    first [-] (same minor); otherwise the first tag that starts with the
    first component followed by a dot (same major); otherwise the first tag
    of the list (latest fallback); and nothing for the empty list. A later
    step is reached only when every earlier one has no candidate. *)
Theorem find_best_matching_tag_priority (missing_tag : str) (available_tags : list str) :
  TagMatcher.find_best_matching_tag missing_tag available_tags
  = Py.Ok (TagMatcher.matched_tag (TagMatcher.resolve missing_tag available_tags)).
Proof. apply find_best_matching_tag_resolve. Qed.

(** Claim C9. [find_best_matching_tag] is total: for every missing tag (with
    or without a [-] or a [.]) and every list of available tags it returns
    and does not raise; it returns nothing exactly when the list is empty;
    and a tag that it returns is an element of the list. *)
Theorem find_best_matching_tag_total (missing_tag : str) (available_tags : list str) :
  ∃ result,
    TagMatcher.find_best_matching_tag missing_tag available_tags = Py.Ok result
    ∧ (result = None ↔ available_tags = [])
    ∧ (∀ tag, result = Some tag → tag ∈ available_tags).
Proof.
  eexists. split; [apply find_best_matching_tag_resolve|]. split.
  - apply resolve_matched_none.
  - intros tag. apply resolve_matched_elem.
Qed.

Lemma find_best_matching_tag_total_witness :
  ∃ result,
    TagMatcher.find_best_matching_tag "12" (strs ["3.1.0-debian-12-r1"]) = Py.Ok result
    ∧ (result = None ↔ strs ["3.1.0-debian-12-r1"] = [])
    ∧ (∀ tag, result = Some tag → tag ∈ strs ["3.1.0-debian-12-r1"]).
Proof. apply (find_best_matching_tag_total "12" (strs ["3.1.0-debian-12-r1"])). Defined.

(* ================================================================== *)
(** * The rewriting of image repositories *)
(* ================================================================== *)

Section RepositoryFacts.

Import Py Re Doc Migrate.

(** [repo.split("/", 1)[1]] under the two guards that precede it. *)
Lemma after_bitnami (rest : str) :
  index (splitn "/" 1 ("bitnami/" ++ rest)) 1 = Ok rest.
Proof. by destruct rest. Qed.

Lemma after_bitnamilegacy (rest : str) :
  index (splitn "/" 1 ("bitnamilegacy/" ++ rest)) 1 = Ok rest.
Proof. by destruct rest. Qed.

Lemma rewrite_repository_bitnami (rest : str) :
  rewrite_repository ("bitnami/" ++ rest) = Ok (Some ("helmhubio/" ++ rest)).
Proof. by destruct rest. Qed.

Lemma rewrite_repository_bitnamilegacy (rest : str) :
  rewrite_repository ("bitnamilegacy/" ++ rest) = Ok (Some ("helmhubio/" ++ rest)).
Proof. by destruct rest. Qed.

Lemma base_name_namespace (ns rest : str) :
  base_name (ns ++ "/" ++ rest) = base_name rest.
Proof. apply (base_name_from_slash [] ns rest). Qed.

Lemma rewrite_repository_base_name (repo new : str) :
  rewrite_repository repo = Ok (Some new) → base_name new = base_name repo.
Proof.
  unfold rewrite_repository.
  destruct (startswith repo "bitnami/") eqn:H1.
  { apply startswith_spec in H1 as [k ->]. rewrite after_bitnami. intros [= <-].
    reflexivity. }
  destruct (startswith repo "bitnamilegacy/") eqn:H2.
  { apply startswith_spec in H2 as [k ->]. rewrite after_bitnamilegacy. intros [= <-].
    reflexivity. }
  destruct (startswith repo "docker.io/helmhubio/") eqn:H3.
  { intros [= <-]. by rewrite replace_same. }
  destruct (startswith repo "docker.io/helmhubiolegacy/") eqn:H4; [|done].
  intros [= <-].
  apply (replace_base_name "docker.io/helmhubiolegacy" "docker.io/helmhubio").
Qed.

Lemma rewrite_image_ref_base_name (item : str) :
  base_name (rewrite_image_ref item) = base_name item.
Proof.
  unfold rewrite_image_ref. rewrite replace_same by done.
  apply (replace_base_name "docker.io/helmhubiolegacy" "docker.io/helmhubio").
Qed.

Lemma rewrite_schema_string_eq (v : str) :
  rewrite_schema_string v
  = Ok (namespace_prefix_rewrite v).
Proof.
  unfold rewrite_schema_string, namespace_prefix_rewrite, schema_prefix.
  destruct (startswith v "bitnami/") eqn:H1.
  { apply startswith_spec in H1 as [k ->]. rewrite after_bitnami.
    simpl. by rewrite replace_same. }
  unfold mbind, res_bind, bind.
  destruct (startswith v "bitnamilegacy/") eqn:H2.
  { apply startswith_spec in H2 as [k ->]. rewrite after_bitnamilegacy.
    simpl. by rewrite replace_same. }
  by rewrite replace_same.
Qed.

Lemma rewrite_schema_string_base_name (v new : str) :
  rewrite_schema_string v = Ok new → base_name new = base_name v.
Proof.
  rewrite rewrite_schema_string_eq. intros [= <-]. unfold namespace_prefix_rewrite.
  rewrite (replace_base_name "docker.io/helmhubiolegacy" "docker.io/helmhubio").
  unfold schema_prefix.
  destruct (startswith v "bitnami/") eqn:H1.
  { apply startswith_spec in H1 as [k ->]. simpl drop.
    reflexivity. }
  destruct (startswith v "bitnamilegacy/") eqn:H2; [|done].
  apply startswith_spec in H2 as [k ->]. simpl drop.
  reflexivity.
Qed.




End RepositoryFacts.

(** Claim C5. In a values document, an image repository [oldns/rest] whose
    namespace [oldns] is one of the two legacy spellings [bitnami] and
    [bitnamilegacy] is rewritten to [helmhubio/rest]: only the segment
    before the first [/] is replaced and [rest] is kept as it is, in the
    string and in the document around it. And no rule on image coordinates
    (of the values, schema and chart rewriters) alters the base name after
    the last [/]. *)
Theorem values_repository_namespace_only :
  (∀ oldns rest : str,
      oldns ∈ strs ["bitnami"; "bitnamilegacy"] →
      Migrate.rewrite_repository (oldns ++ "/" ++ rest)
      = Py.Ok (Some ("helmhubio/" ++ rest)))
  ∧ (∀ (obj img : Doc.dict) (oldns rest : str) (changed : bool),
        oldns ∈ strs ["bitnami"; "bitnamilegacy"] →
        Doc.get "image" obj = Some (VDict img) →
        Doc.get "repository" img = Some (VStr (oldns ++ "/" ++ rest)) →
        Migrate.visit_image obj changed
        = Py.Ok (Doc.set "image"
                   (VDict (Doc.set "repository" (VStr ("helmhubio/" ++ rest)) img)) obj,
                 true))
  ∧ (∀ repo new : str,
        Migrate.rewrite_repository repo = Py.Ok (Some new) →
        Re.base_name new = Re.base_name repo)
  ∧ (∀ v new : str,
        Migrate.rewrite_schema_string v = Py.Ok new → Re.base_name new = Re.base_name v)
  ∧ (∀ item : str, Re.base_name (Migrate.rewrite_image_ref item) = Re.base_name item).
Proof.
  assert (∀ oldns rest : str,
             oldns ∈ strs ["bitnami"; "bitnamilegacy"] →
             Migrate.rewrite_repository (oldns ++ "/" ++ rest)
             = Py.Ok (Some ("helmhubio/" ++ rest))) as Hns.
  { intros oldns rest Hin. unfold strs in Hin. simpl in Hin.
    apply elem_of_cons in Hin as [->|Hin]; [apply rewrite_repository_bitnami|].
    apply elem_of_cons in Hin as [->|Hin]; [apply rewrite_repository_bitnamilegacy|].
    by apply elem_of_nil in Hin. }
  split_and!.
  - exact Hns.
  - intros obj img oldns rest changed Hin Himg Hrepo.
    unfold Migrate.visit_image. rewrite Himg, Hrepo.
    by rewrite (Hns oldns rest Hin).
  - apply rewrite_repository_base_name.
  - apply rewrite_schema_string_base_name.
  - apply rewrite_image_ref_base_name.
Qed.

Lemma values_repository_namespace_only_witness :
  Migrate.rewrite_repository ("bitnami" ++ "/" ++ "foo/bar")
  = Py.Ok (Some ("helmhubio/" ++ "foo/bar" : str))
  ∧ Migrate.visit_image
      [("image" : str, VDict [("repository" : str, VStr ("bitnamilegacy" ++ "/" ++ "foo/bar"))])]
      false
    = Py.Ok ([("image" : str, VDict [("repository" : str, VStr ("helmhubio/" ++ "foo/bar"))])],
             true)
  ∧ Re.base_name "helmhubio/foo/bar" = Re.base_name "bitnami/foo/bar".
Proof.
  destruct values_repository_namespace_only as (H1 & H2 & H3 & _).
  split_and!.
  - apply (H1 "bitnami" "foo/bar"). vm_compute. left.
  - apply (H2 [("image" : str, VDict [("repository" : str, VStr ("bitnamilegacy" ++ "/" ++ "foo/bar"))])]
              [("repository" : str, VStr ("bitnamilegacy" ++ "/" ++ "foo/bar"))]
              "bitnamilegacy" "foo/bar" false).
    + vm_compute. right. left.
    + reflexivity.
    + reflexivity.
  - apply (H3 "bitnami/foo/bar" "helmhubio/foo/bar"). reflexivity.
Defined.

(* ================================================================== *)
(** * The text rewriter *)
(* ================================================================== *)

Section TextFacts.

Import Py Re Migrate.

Lemma strip_spec (p s rest : str) : strip p s = Some rest ↔ s = p ++ rest.
Proof.
  revert s. induction p as [|a p IH]; intros s; simpl.
  - split; [by intros [= ->] | by intros ->].
  - destruct s as [|b s]; [done|].
    destruct (Ascii.eqb_spec a b) as [->|Hne].
    + rewrite IH. split; [by intros -> | by intros [= ->]].
    + split; [done | by intros [= <- _]].
Qed.

Lemma alt_spec (alts : list str) (s g rest : str) :
  alt alts s = Some (g, rest) → g ∈ alts ∧ s = g ++ rest.
Proof.
  induction alts as [|a alts IH]; simpl; [done|].
  destruct (strip a s) as [r|] eqn:Hs.
  - intros [= <- <-]. apply strip_spec in Hs. split; [left | done].
  - intros [Hin ->]%IH. split; [by right | done].
Qed.

Lemma slashes_app (s t : str) : slashes (s ++ t) = (slashes s + slashes t)%nat.
Proof. unfold slashes. by rewrite List.filter_app, length_app. Qed.

(** A text without a match of the pattern is left as it is. *)
Lemma sub_from_no_match_anywhere (m : matcher) (s : str) (prev : option ascii) :
  (∀ prev' before suf, s = before ++ suf → m prev' suf = None) →
  sub_from m O prev s = s.
Proof.
  revert prev. induction s as [|c s IH]; intros prev Hm; [done|].
  rewrite sub_from_no_match by (by apply (Hm prev [])).
  f_equal. apply IH. intros prev' before suf ->.
  by apply (Hm prev' (c :: before)).
Qed.

Section Slashes.

#[local] Arguments strip : simpl never.
#[local] Arguments alt : simpl never.

(** Every pattern of [SAFE_TEXT_PATTERNS] needs two [/] at least. *)
Lemma safe_pattern_slashes (m : matcher) (prev : option ascii) (s : str) :
m ∈ SAFE_TEXT_PATTERNS → is_Some (m prev s) → (2 ≤ slashes s)%nat.
Proof.
unfold SAFE_TEXT_PATTERNS. intros Hm [r Hr].
assert (∀ old new : str,
           literal old new prev s = Some r → (2 ≤ slashes old)%nat → (2 ≤ slashes s)%nat)
  as Hlit.
{ intros old new Hl Hold. unfold literal in Hl.
  destruct (startswith s old) eqn:Hs; [|done].
  apply startswith_spec in Hs as [k ->]. rewrite slashes_app. lia. }
repeat (apply elem_of_cons in Hm as [->|Hm];
        [try (eapply Hlit; [exact Hr | vm_compute; lia])|]).
- unfold tree_blob_path in Hr. simpl in Hr.
  destruct (strip _ s) as [s1|] eqn:H1; [|done]. simpl in Hr.
  destruct (alt _ s1) as [[g1 s2]|] eqn:H2; [|done]. simpl in Hr.
  destruct (strip _ s2) as [s3|] eqn:H3; [|done].
  apply strip_spec in H1 as ->. apply alt_spec in H2 as [_ ->].
  apply strip_spec in H3 as ->.
  rewrite (slashes_app "/"), (slashes_app g1), (slashes_app "/").
  change (slashes "/") with 1%nat. lia.
- by apply elem_of_nil in Hm.
Qed.

End Slashes.

Lemma apply_patterns_unchanged (patterns : list matcher) (s : str) :
  (∀ m prev before suf, m ∈ patterns → s = before ++ suf → m prev suf = None) →
  apply_patterns patterns s = s.
Proof.
  unfold apply_patterns. induction patterns as [|m patterns IH]; intros H; [done|].
  simpl. unfold sub. rewrite sub_from_no_match_anywhere.
  - apply IH. intros m' prev before suf Hin. apply H. by right.
  - intros prev before suf. apply H. left.
Qed.

Lemma safe_patterns_unchanged (s : str) :
  (slashes s < 2)%nat → apply_patterns SAFE_TEXT_PATTERNS s = s.
Proof.
  intros Hs. apply apply_patterns_unchanged.
  intros m prev before suf Hm ->.
  destruct (m prev suf) eqn:Hsome; [|done].
  assert (2 ≤ slashes suf)%nat by (eapply safe_pattern_slashes; eauto).
  rewrite slashes_app in Hs. lia.
Qed.

Lemma brand_unchanged (s : str) :
  "B"%char ∉ s → apply_patterns README_BRAND_PATTERNS s = s.
Proof.
  intros HB. apply apply_patterns_unchanged.
  intros m prev before suf Hm ->.
  apply list_elem_of_singleton in Hm as ->. unfold brand_word.
  destruct (word_boundary prev (head suf)); [|done].
  destruct (strip "Bitnami" suf) as [rest|] eqn:Hs; [|done].
  apply strip_spec in Hs as ->. exfalso. apply HB.
  apply elem_of_app. right. left.
Qed.

Lemma span_all (cls : ascii → bool) (s : str) :
  (∀ c, c ∈ s → cls c = true) → span cls s = s.
Proof.
  induction s as [|c s IH]; intros H; [done|]. simpl.
  rewrite H by left. f_equal. apply IH. intros d Hd. apply H. by right.
Qed.

Lemma sub_from_skip_all (m : matcher) (s : str) (prev : option ascii) :
  sub_from m (length s) prev s = [].
Proof.
  rewrite <- (app_nil_r s) at 2. by rewrite sub_from_skip.
Qed.

(** The namespace rule on a text that is one [bitnami/<name>] token. *)
Lemma namespace_mention_token (cls : ascii → bool) (new_ns name : str) :
  name ≠ [] → (∀ c, c ∈ name → cls c = true) →
  sub (namespace_mention cls new_ns) ("bitnami/" ++ name) = new_ns ++ "/" ++ name.
Proof.
  intros Hne Hcls. unfold sub.
  assert (namespace_mention cls new_ns None (("bitnami/" ++ name) ++ [])
          = Some (length ("bitnami/" ++ name), new_ns ++ "/" ++ name)) as Hm.
  { rewrite app_nil_r. unfold namespace_mention. simpl.
    rewrite span_all by done. by destruct name. }
  rewrite <- (app_nil_r ("bitnami/" ++ name)) at 1.
  rewrite (sub_from_match _ None ("bitnami/" ++ name) [] _ ltac:(done) Hm).
  simpl. by rewrite app_nil_r.
Qed.

Lemma lower_name_char_is_name_char (c : ascii) :
  is_lower_name_char c = true → is_name_char c = true.
Proof. unfold is_name_char. by intros ->. Qed.

Lemma lower_name_no_slash (name : str) :
  (∀ c, c ∈ name → is_lower_name_char c = true) → slashes name = O.
Proof.
  induction name as [|c name IH]; intros H; [done|].
  change (slashes (c :: name))
    with (length (if Ascii.eqb "/" c then c :: List.filter (Ascii.eqb "/") name
                  else List.filter (Ascii.eqb "/") name)).
  destruct (Ascii.eqb_spec "/" c) as [<-|_].
  - specialize (H "/"%char ltac:(left)). by vm_compute in H.
  - apply IH. intros d Hd. apply H. by right.
Qed.

Lemma lower_name_no_B (name : str) :
  (∀ c, c ∈ name → is_lower_name_char c = true) → "B"%char ∉ name.
Proof. intros H HB. specialize (H _ HB). by vm_compute in H. Qed.

Lemma safe_text_docs_token (name : str) :
  name ≠ [] → (∀ c, c ∈ name → is_lower_name_char c = true) →
  safe_text true false ("bitnami/" ++ name) = "helmhubio/" ++ name.
Proof.
  intros Hne Hcls. unfold safe_text.
  rewrite safe_patterns_unchanged.
  2:{ rewrite (slashes_app "bitnami/"). rewrite (lower_name_no_slash name) by done.
      vm_compute. lia. }
  rewrite brand_unchanged.
  2:{ intros [HB|HB]%elem_of_app; [|by apply lower_name_no_B in HB].
      apply list_elem_of_In in HB. simpl in HB. intuition discriminate. }
  by rewrite namespace_mention_token.
Qed.

Lemma safe_text_ci_token (name : str) :
  name ≠ [] → (∀ c, c ∈ name → is_lower_name_char c = true) →
  safe_text false true ("bitnami/" ++ name) = "helmhub-io/" ++ name.
Proof.
  intros Hne Hcls. unfold safe_text.
  rewrite safe_patterns_unchanged.
  2:{ rewrite (slashes_app "bitnami/"). rewrite (lower_name_no_slash name) by done.
      vm_compute. lia. }
  rewrite namespace_mention_token; [done..|].
  intros c Hc. by apply lower_name_char_is_name_char, Hcls.
Qed.

End TextFacts.

(* ================================================================== *)
(** * Tables of literal rules *)
(* ================================================================== *)

Section TableFacts.

Import Py Re Migrate.

Lemma contains_spec (s u : str) :
  contains s u = true ↔ ∃ before after, s = before ++ u ++ after.
Proof.
  induction s as [|c s IH]; simpl.
  - rewrite orb_false_r, startswith_spec. split.
    + intros [k Hk]. by exists [], k.
    + intros (before & after & H). symmetry in H.
      apply app_eq_nil in H as [-> H]. eauto.
  - rewrite orb_true_iff, IH, startswith_spec. split.
    + intros [[k Hk]|(before & after & ->)]; [by exists [], k|].
      by exists (c :: before), after.
    + intros ([|d before] & after & H); [left; by exists after|].
      right. injection H as -> ->. eauto.
Qed.

Lemma contains_false_iff (s u : str) :
  contains s u = false ↔ ∀ before after, s ≠ before ++ u ++ after.
Proof.
  rewrite <- not_true_iff_false, contains_spec. split.
  - intros H before after Hs. apply H. eauto.
  - intros H (before & after & Hs). by apply (H before after).
Qed.

Lemma contains_suffix (before s u : str) :
  contains (before ++ s) u = false → contains s u = false.
Proof.
  rewrite !contains_false_iff. intros H b a ->.
  apply (H (before ++ b) a). by rewrite <- app_assoc.
Qed.

Lemma contains_within (before x after u : str) :
  contains x u = true → contains (before ++ x ++ after) u = true.
Proof.
  rewrite !contains_spec. intros (b & a & ->).
  exists (before ++ b), (a ++ after). by rewrite <- !app_assoc.
Qed.

Lemma contains_startswith (s u : str) :
  contains s u = false → startswith s u = false.
Proof.
  intros H. destruct (startswith s u) eqn:Hs; [|done].
  apply startswith_spec in Hs as [k ->].
  destruct (proj1 (contains_false_iff _ _) H [] k). done.
Qed.

(** A concatenation holds no [u] when no [u] starts within its first part
    and its second part holds none. *)
Lemma contains_app_false (x y u : str) :
  (∀ x', x' ∈ tails x → startswith (x' ++ y) u = false) →
  contains y u = false → contains (x ++ y) u = false.
Proof.
  induction x as [|c x IH]; intros Hx Hy; [done|].
  change (contains ((c :: x) ++ y) u)
    with (startswith ((c :: x) ++ y) u || contains (x ++ y) u).
  rewrite (Hx (c :: x)) by left. simpl.
  apply IH; [|done]. intros x' Hx'. apply Hx. by right.
Qed.

Lemma clash_startswith (r u rest : str) :
  clash r u = true → startswith (r ++ rest) u = false.
Proof.
  revert u. induction r as [|a r IH]; intros [|b u]; simpl; try done.
  rewrite Ascii.eqb_sym. destruct (Ascii.eqb b a); [apply IH | done].
Qed.

Lemma reflects_tail (rules : list (str * str)) (a : ascii) (u : str) :
  reflects rules (a :: u) = true → reflects rules u = true.
Proof. unfold reflects. simpl. by intros [_ H]%andb_true_iff. Qed.

Lemma multi_Some (rules : list (str * str)) prev (s : str) (n : nat) (r : str) :
  multi rules prev s = Some (n, r) →
  ∃ p, (p, r) ∈ rules ∧ startswith s p = true ∧ n = length p.
Proof.
  induction rules as [|[p0 r0] rules IH]; simpl; [done|].
  destruct (startswith s p0) eqn:Hs.
  - intros [= <- <-]. exists p0. split_and!; [left | done..].
  - intros (p & Hin & H)%IH. exists p. split; [by right | done].
Qed.

Lemma multi_None (rules : list (str * str)) prev (s p r : str) :
  multi rules prev s = None → (p, r) ∈ rules → startswith s p = false.
Proof.
  induction rules as [|[p0 r0] rules IH]; simpl; [by intros _ ?%elem_of_nil|].
  destruct (startswith s p0) eqn:Hs; [done|].
  intros Hm [[= -> ->]|Hin]%elem_of_cons; [done | by apply IH].
Qed.

Lemma multi_prev (rules : list (str * str)) prev prev' (s : str) :
  multi rules prev s = multi rules prev' s.
Proof.
  induction rules as [|[p0 r0] rules IH]; simpl; [done|]. by rewrite IH.
Qed.

Lemma patterns_nonempty_elem (rules : list (str * str)) (p r : str) :
  patterns_nonempty rules = true → (p, r) ∈ rules → p ≠ [].
Proof.
  unfold patterns_nonempty. rewrite forallb_forall.
  intros H Hin%list_elem_of_In. specialize (H _ Hin). by destruct p.
Qed.

Lemma multi_wf (rules : list (str * str)) :
  patterns_nonempty rules = true → wf_matcher (multi rules).
Proof.
  intros Hne prev s n r (p & Hin & Hs & ->)%multi_Some.
  apply startswith_spec in Hs as [k ->]. rewrite length_app.
  pose proof (patterns_nonempty_elem _ _ _ Hne Hin). destruct p; [done|]. simpl. lia.
Qed.

Lemma sub_from_ext (m m' : matcher) (k : nat) prev (s : str) :
  (∀ prev s, m prev s = m' prev s) → sub_from m k prev s = sub_from m' k prev s.
Proof.
  intros H. revert k prev. induction s as [|c s IH]; intros k prev; [done|].
  simpl. destruct k as [|k]; [|apply IH]. rewrite H.
  destruct (m' prev (c :: s)) as [[[|n] r]|]; by rewrite ?IH.
Qed.

Lemma sub_from_multi_prev (rules : list (str * str)) (k : nat) prev prev' (s : str) :
  sub_from (multi rules) k prev s = sub_from (multi rules) k prev' s.
Proof.
  revert k prev prev'. induction s as [|c s IH]; intros k prev prev'; [done|].
  simpl. destruct k as [|k]; [|apply IH]. by rewrite (multi_prev _ prev prev').
Qed.

Lemma sub_multi_match (rules : list (str * str)) (p r rest : str) :
  p ≠ [] → multi rules None (p ++ rest) = Some (length p, r) →
  sub (multi rules) (p ++ rest) = r ++ sub (multi rules) rest.
Proof.
  intros Hne Hm. unfold sub. rewrite (sub_from_match (multi rules) None p rest r Hne Hm).
  f_equal. apply sub_from_multi_prev.
Qed.

Lemma sub_multi_step (rules : list (str * str)) (c : ascii) (s : str) :
  multi rules None (c :: s) = None →
  sub (multi rules) (c :: s) = c :: sub (multi rules) s.
Proof.
  intros Hm. unfold sub. rewrite sub_from_no_match by done.
  f_equal. apply sub_from_multi_prev.
Qed.

(** The scan with a table of literal rules, as an induction principle. *)
Lemma sub_multi_ind (rules : list (str * str)) (P : str → Prop) :
  patterns_nonempty rules = true →
  P [] →
  (∀ p r rest,
      (p, r) ∈ rules → p ≠ [] →
      sub (multi rules) (p ++ rest) = r ++ sub (multi rules) rest →
      P rest → P (p ++ rest)) →
  (∀ c s,
      multi rules None (c :: s) = None →
      sub (multi rules) (c :: s) = c :: sub (multi rules) s →
      P s → P (c :: s)) →
  ∀ s, P s.
Proof.
  intros Hne Hnil Hmatch Hstep s.
  remember (length s) as n eqn:Hn. revert s Hn.
  induction n as [n IH] using lt_wf_ind. intros s Hn.
  destruct s as [|c s]; [apply Hnil|].
  destruct (multi rules None (c :: s)) as [[k r]|] eqn:Hm.
  - destruct (multi_Some _ _ _ _ _ Hm) as (p & Hin & Hs & ->).
    apply startswith_spec in Hs as [rest Hs]. rewrite Hs in Hm, Hn |- *.
    pose proof (patterns_nonempty_elem _ _ _ Hne Hin) as Hp.
    apply (Hmatch p r rest); [done | done | by apply sub_multi_match|].
    eapply IH; [|done]. rewrite Hn, length_app. destruct p; [done|]. simpl. lia.
  - apply Hstep; [done | by apply sub_multi_step|].
    eapply IH; [|done]. rewrite Hn. simpl. lia.
Qed.

Lemma reflects_head (rules : list (str * str)) (u p r : str) :
  reflects rules u = true → u ≠ [] → (p, r) ∈ rules →
  clash r u = true ∨ (startswith r u = true ∧ startswith p u = true).
Proof.
  destruct u as [|a u]; [done|]. unfold reflects. simpl.
  intros [H _]%andb_true_iff _ Hin%list_elem_of_In.
  rewrite forallb_forall in H. specialize (H _ Hin). simpl in H.
  apply orb_true_iff in H as [H|[H1 H2]%andb_true_iff]; eauto.
Qed.

Lemma startswith_app_l (s u rest : str) :
  startswith s u = true → startswith (s ++ rest) u = true.
Proof.
  rewrite !startswith_spec. intros [k ->]. exists (k ++ rest). by rewrite app_assoc.
Qed.

(** Where the check [reflects] holds of [u], a prefix [u] of the
    substituted text is a prefix of the text. *)
Lemma sub_multi_reflect (rules : list (str * str)) (u : str) :
  patterns_nonempty rules = true → reflects rules u = true →
  ∀ s, startswith (sub (multi rules) s) u = true → startswith s u = true.
Proof.
  intros Hne. induction u as [|a u IH]; intros Hu s; [done|].
  destruct s as [|c s]; [done|].
  destruct (multi rules None (c :: s)) as [[k r]|] eqn:Hm.
  - destruct (multi_Some _ _ _ _ _ Hm) as (p & Hin & Hs & ->).
    apply startswith_spec in Hs as [rest Hs]. rewrite Hs in Hm |- *.
    rewrite (sub_multi_match rules p r rest) by eauto using patterns_nonempty_elem.
    destruct (reflects_head _ _ _ _ Hu ltac:(done) Hin) as [Hc|[_ Hp]].
    + by rewrite clash_startswith.
    + intros _. by apply startswith_app_l.
  - rewrite sub_multi_step by done. rewrite !startswith_cons.
    destruct (Ascii.eqb a c); [|done]. apply IH. by eapply reflects_tail.
Qed.

Lemma inside_ok_elem (rules : list (str * str)) (u : str) (forbidden : list str)
    (p r r' : str) :
  inside_ok rules u forbidden = true → (p, r) ∈ rules → r' ∈ tails r →
  clash r' u = true
  ∨ ∃ u' f, u = r' ++ u' ∧ reflects rules u' = true
            ∧ f ∈ forbidden ∧ contains (p ++ u') f = true.
Proof.
  unfold inside_ok. rewrite forallb_forall.
  intros H Hin%list_elem_of_In Hr'%list_elem_of_In.
  specialize (H _ Hin). simpl in H. rewrite forallb_forall in H.
  specialize (H _ Hr').
  apply orb_true_iff in H as [H|H]; [by left|]. right.
  apply andb_true_iff in H as [H Hf]. apply andb_true_iff in H as [H Hrefl].
  apply andb_true_iff in H as [Hs _].
  apply startswith_spec in Hs as [u' ->].
  rewrite drop_app_length in Hf, Hrefl.
  apply existsb_exists in Hf as (f & Hf%list_elem_of_In & Hc).
  by exists u', f.
Qed.

(** The occurrences of a word in the substituted text. No [u] is there
    when the checks hold of [u], the text holds no forbidden word, and no
    [u] starts in the text where no rule applies. *)
Lemma sub_multi_no_occurrence (rules : list (str * str)) (u : str) (forbidden : list str) :
  patterns_nonempty rules = true → u ≠ [] →
  reflects rules u = true → inside_ok rules u forbidden = true →
  ∀ s, (∀ f, f ∈ forbidden → contains s f = false) →
       (∀ before c s', s = before ++ c :: s' →
                       multi rules None (c :: s') = None → startswith (c :: s') u = false) →
       contains (sub (multi rules) s) u = false.
Proof.
  intros Hne Hu Hrefl Hin.
  apply (sub_multi_ind rules
           (fun s =>
              (∀ f, f ∈ forbidden → contains s f = false) →
              (∀ before c s', s = before ++ c :: s' →
                              multi rules None (c :: s') = None →
                              startswith (c :: s') u = false) →
              contains (sub (multi rules) s) u = false)); [done|..].
  - intros _ _. by destruct u.
  - intros p r rest Hpr Hp Hsub IH Hf Hcopy. rewrite Hsub. apply contains_app_false.
    + intros r' Hr'.
      destruct (inside_ok_elem _ _ _ _ _ _ Hin Hpr Hr')
        as [Hc|(u' & f & -> & Hu' & Hfin & Hcf)]; [by apply clash_startswith|].
      destruct (startswith (r' ++ _) (r' ++ u')) eqn:Hs; [|done]. exfalso.
      apply startswith_spec in Hs as [k Hk]. rewrite <- app_assoc in Hk.
      apply app_inv_head in Hk.
      assert (startswith rest u' = true) as [k' ->]%startswith_spec.
      { apply (sub_multi_reflect rules); [done..|]. apply startswith_spec. eauto. }
      specialize (Hf f Hfin). rewrite app_assoc in Hf.
      pose proof (contains_within [] (p ++ u') k' f Hcf) as Hc. simpl in Hc. congruence.
    + apply IH.
      * intros f Hfin. eapply contains_suffix, Hf, Hfin.
      * intros before c s' ->. apply (Hcopy (p ++ before)). by rewrite <- app_assoc.
  - intros c s Hm Hsub IH Hf Hcopy. rewrite Hsub.
    change (contains (c :: sub (multi rules) s) u)
      with (startswith (c :: sub (multi rules) s) u || contains (sub (multi rules) s) u).
    apply orb_false_iff. split.
    + destruct u as [|a u]; [done|].
      pose proof (Hcopy [] c s eq_refl Hm) as Hc.
      rewrite startswith_cons in Hc |- *. destruct (Ascii.eqb a c); [|done].
      destruct (startswith (sub _ s) u) eqn:Hs; [|done].
      apply (sub_multi_reflect rules) in Hs; [congruence | done |].
      by eapply reflects_tail.
    + apply IH.
      * intros f Hfin. apply (contains_suffix [c]), Hf, Hfin.
      * intros before d s' ->. apply (Hcopy (c :: before)). done.
Qed.

(** A rule of the table leaves no match of its pattern. *)
Lemma sub_multi_removes (rules : list (str * str)) (p r : str) (forbidden : list str) :
  patterns_nonempty rules = true → (p, r) ∈ rules →
  reflects rules p = true → inside_ok rules p forbidden = true →
  ∀ s, (∀ f, f ∈ forbidden → contains s f = false) →
       contains (sub (multi rules) s) p = false.
Proof.
  intros Hne Hin Hrefl Hok s Hf.
  apply (sub_multi_no_occurrence rules p forbidden);
    [done | by eapply patterns_nonempty_elem | done..|].
  intros before c s' _ Hm. by eapply multi_None.
Qed.


(** A text that holds no pattern of the table is left as it is. *)
Lemma sub_multi_fixed (rules : list (str * str)) (s : str) :
  (∀ p r, (p, r) ∈ rules → contains s p = false) → sub (multi rules) s = s.
Proof.
  intros H. apply sub_from_no_match_anywhere. intros prev before suf ->.
  destruct (multi rules prev suf) as [[n r]|] eqn:Hm; [|done]. exfalso.
  apply multi_Some in Hm as (p & Hin & Hs & _).
  specialize (H p r Hin). apply contains_suffix, contains_startswith in H. congruence.
Qed.

Lemma keeps_out_spec (forbidden : list str) (rules : list (str * str)) (u : str) :
  keeps_out forbidden rules u = true →
  u ≠ [] ∧ reflects rules u = true ∧ inside_ok rules u forbidden = true.
Proof. destruct u; [done|]. simpl. by intros [? ?]%andb_true_iff. Qed.






Lemma apply_tables_fixed (tables : list (list (str * str))) (s : str) :
  (∀ rules p r, rules ∈ tables → (p, r) ∈ rules → contains s p = false) →
  apply_tables tables s = s.
Proof.
  unfold apply_tables. induction tables as [|t tables IH]; intros H; [done|]. simpl.
  rewrite sub_multi_fixed.
  - apply IH. intros rules p r Hin. apply H. by right.
  - intros p r. apply H. left.
Qed.


End TableFacts.

(* ================================================================== *)
(** * The table of the text rules *)
(* ================================================================== *)

Section PatternFacts.

Import Py Re Doc Migrate.

#[local] Arguments strip : simpl never.
#[local] Arguments alt : simpl never.

Lemma tree_blob_path_multi prev (s : str) :
  tree_blob_path prev s = multi tree_blob_rules prev s.
Proof.
  destruct (tree_blob_path prev s) as [[n r]|] eqn:Ht.
  - unfold tree_blob_path in Ht. simpl in Ht.
    destruct (strip _ s) as [s1|] eqn:H1; [|done]. simpl in Ht.
    destruct (alt _ s1) as [[g1 s2]|] eqn:H2; [|done]. simpl in Ht.
    destruct (strip _ s2) as [s3|] eqn:H3; [|done]. simpl in Ht.
    destruct (alt _ s3) as [[g2 s4]|] eqn:H4; [|done]. simpl in Ht.
    destruct (strip _ s4) as [s5|] eqn:H5; [|done]. simpl in Ht.
    apply strip_spec in H1 as ->. apply alt_spec in H2 as [Hg1 ->].
    apply strip_spec in H3 as ->. apply alt_spec in H4 as [Hg2 ->].
    apply strip_spec in H5 as ->. injection Ht as <- <-.
    apply list_elem_of_In in Hg1, Hg2. simpl in Hg1, Hg2.
    destruct Hg1 as [<-|[<-|[]]]; destruct Hg2 as [<-|[<-|[]]]; reflexivity.
  - destruct (multi tree_blob_rules prev s) as [[n r]|] eqn:Hm; [|done].
    apply multi_Some in Hm as (p & Hin & [k ->]%startswith_spec & _).
    apply list_elem_of_In in Hin. simpl in Hin.
    destruct Hin as [[= <- <-]|[[= <- <-]|[[= <- <-]|[[= <- <-]|[]]]]];
      vm_compute in Ht; discriminate Ht.
Qed.

Lemma sub_tree_blob_path (s : str) :
  sub tree_blob_path s = sub (multi tree_blob_rules) s.
Proof. apply sub_from_ext, tree_blob_path_multi. Qed.

Lemma apply_patterns_tables (s : str) :
  apply_patterns SAFE_TEXT_PATTERNS s = apply_tables SAFE_TEXT_TABLES s.
Proof.
  unfold apply_patterns, apply_tables, SAFE_TEXT_PATTERNS, SAFE_TEXT_TABLES.
  cbn [foldl]. by rewrite sub_tree_blob_path.
Qed.






End PatternFacts.

Section FileFacts.

Import Py Re Doc Migrate.

Lemma set_get_id (k : str) (v : value) (d : dict) :
  get k d = Some v → set k v d = d.
Proof.
  induction d as [|[k' v'] d IH]; simpl; [done|].
  case_bool_decide; [by intros [= ->]|]. intros Hget. by rewrite IH.
Qed.

Lemma update_each_id (f : value → bool → value * bool) (items : list value) (changed : bool) :
  (∀ item c, f item c = (item, c)) → update_each f items changed = (items, changed).
Proof.
  intros Hf. induction items as [|item items IH]; simpl; [done|].
  by rewrite Hf, IH.
Qed.

(** The replacement made on a dependency replaces a registry by
    itself. *)
Lemma rewrite_dependency_id (dep : value) (changed : bool) :
  rewrite_dependency dep changed = (dep, changed).
Proof.
  unfold rewrite_dependency. destruct dep as [| | | |?|d]; try done.
  destruct (get "repository" d) as [[| | |repo| |]|]; try done.
  rewrite replace_same by done. by rewrite bool_decide_eq_true_2.
Qed.

Lemma chart_dependencies_id (data : dict) (changed : bool) (r : dict * bool) :
  chart_dependencies data changed = Ok r → r = (data, changed).
Proof.
  unfold chart_dependencies.
  destruct (get "dependencies" data) as [v|] eqn:Hget; [|by intros [= <-]].
  destruct v as [|b|q|s|deps|d]; try by intros [= <-].
  - simpl. destruct b; [done | by intros [= <-]].
  - simpl. destruct (negb _); [done | by intros [= <-]].
  - rewrite (update_each_id _ _ _ rewrite_dependency_id).
    rewrite (set_get_id _ _ _ Hget). by intros [= <-].
Qed.

End FileFacts.

(* ================================================================== *)
(** * The visitors of the values and schema rewriters *)
(* ================================================================== *)

Section VisitorFacts.

Import Py Doc Migrate.

Lemma depth_element (v : value) (l : list value) :
  v ∈ l → (depth v < depth (VList l))%nat.
Proof.
  simpl. induction l as [|x l IH]; [by intros ?%elem_of_nil|].
  intros [->|Hin]%elem_of_cons; simpl; [lia|].
  specialize (IH Hin). lia.
Qed.

Lemma depth_item (k : str) (v : value) (d : dict) :
  (k, v) ∈ d → (depth v < depth (VDict d))%nat.
Proof.
  simpl. induction d as [|[k' x] d IH]; [by intros ?%elem_of_nil|].
  intros [[= -> ->]|Hin]%elem_of_cons; simpl; [lia|].
  specialize (IH Hin). lia.
Qed.

(** A loop over the elements whose body computes [g]. *)
Lemma each_element_map (f : value → bool → res (value * bool)) (g : value → value)
    (l : list value) (c : bool) :
  (∀ v c, v ∈ l → ∃ c', f v c = Ok (g v, c')) →
  ∃ c', each_element f l c = Ok (map g l, c').
Proof.
  revert c. induction l as [|v l IH]; intros c Hf; simpl; [eauto|].
  destruct (Hf v c) as [c1 ->]; [left|]. simpl.
  destruct (IH c1) as [c2 ->]; [|simpl; eauto].
  intros x c0 Hx. apply Hf. by right.
Qed.

Lemma each_item_map (f : value → bool → res (value * bool)) (g : value → value)
    (d : dict) (c : bool) :
  (∀ k v c, (k, v) ∈ d → ∃ c', f v c = Ok (g v, c')) →
  ∃ c', each_item f d c = Ok (map (fun '(k, v) => (k, g v)) d, c').
Proof.
  revert c. induction d as [|[k v] d IH]; intros c Hf; simpl; [eauto|].
  destruct (Hf k v c) as [c1 ->]; [left|]. simpl.
  destruct (IH c1) as [c2 ->]; [|simpl; eauto].
  intros k' x c0 Hx. eapply Hf. by right.
Qed.





End VisitorFacts.

Section DictFacts.

Import Py Doc Migrate.


Lemma get_set_eq (k : str) (v : value) (d : dict) : get k (set k v d) = Some v.
Proof.
  induction d as [|[k' x] d IH]; simpl; [by rewrite bool_decide_eq_true_2|].
  case_bool_decide as Hk; simpl.
  - by rewrite bool_decide_eq_true_2.
  - by rewrite bool_decide_eq_false_2.
Qed.

Lemma get_set_ne (k k' : str) (v : value) (d : dict) :
  k ≠ k' → get k' (set k v d) = get k' d.
Proof.
  intros Hne. induction d as [|[k0 x] d IH]; simpl.
  - by rewrite bool_decide_eq_false_2.
  - case_bool_decide as Hk; simpl.
    + subst. by rewrite !bool_decide_eq_false_2.
    + by rewrite IH.
Qed.


Lemma depth_set (k : str) (x x' : value) (d : dict) :
  get k d = Some x → depth x' = depth x → depth (VDict (set k x' d)) = depth (VDict d).
Proof.
  intros Hg Hd. simpl. f_equal. revert Hg.
  induction d as [|[k' y] d IH]; simpl; [done|].
  case_bool_decide as Hk; simpl.
  - intros [= ->]. by rewrite Hd.
  - intros Hg. by rewrite IH.
Qed.




Lemma image_repositories_dict (d : dict) :
  image_repositories (VDict d)
  = match get "image" d with
    | Some (VDict img) =>
        match get "repository" img with
        | Some (VStr repo) => [repo]
        | _ => []
        end
    | _ => []
    end ++ flat_map (fun '(_, x) => image_repositories x) d.
Proof. reflexivity. Qed.





End DictFacts.

Section ValuesFacts.

Import Py Doc Migrate.




Lemma rewrite_repository_total (repo : str) : ∃ new, rewrite_repository repo = Ok new.
Proof.
  unfold rewrite_repository.
  destruct (startswith repo "bitnami/") eqn:H1.
  { apply startswith_spec in H1 as [k ->]. rewrite after_bitnami. eauto. }
  destruct (startswith repo "bitnamilegacy/") eqn:H2.
  { apply startswith_spec in H2 as [k ->]. rewrite after_bitnamilegacy. eauto. }
  destruct (startswith repo "docker.io/helmhubio/"); [eauto|].
  destruct (startswith repo "docker.io/helmhubiolegacy/"); eauto.
Qed.

(** The [image] branch never raises, and keeps the depth. *)
Lemma visit_image_total (d : dict) (c : bool) :
  ∃ d1 c1, visit_image d c = Ok (d1, c1) ∧ depth (VDict d1) = depth (VDict d).
Proof.
  unfold visit_image.
  destruct (get "image" d) as [[| | | | |img]|] eqn:Hi; eauto.
  destruct (get "repository" img) as [[| | |repo| |]|] eqn:Hr; eauto.
  destruct (rewrite_repository_total repo) as [[new|] ->]; simpl; [|eauto].
  eexists _, _. split; [done|].
  apply (depth_set _ _ _ _ Hi). by apply (depth_set _ _ _ _ Hr).
Qed.

Lemma each_element_total (f : value → bool → res (value * bool)) (l : list value) (c : bool) :
  (∀ v c, v ∈ l → ∃ r, f v c = Ok r) → ∃ r, each_element f l c = Ok r.
Proof.
  revert c. induction l as [|v l IH]; intros c Hf; simpl; [eauto|].
  destruct (Hf v c) as [[v' c1] ->]; [left|]. simpl.
  destruct (IH c1) as [[l' c2] ->]; [|simpl; eauto].
  intros x c0 Hx. apply Hf. by right.
Qed.

Lemma each_item_total (f : value → bool → res (value * bool)) (d : dict) (c : bool) :
  (∀ k v c, (k, v) ∈ d → ∃ r, f v c = Ok r) → ∃ r, each_item f d c = Ok r.
Proof.
  revert c. induction d as [|[k v] d IH]; intros c Hf; simpl; [eauto|].
  destruct (Hf k v c) as [[v' c1] ->]; [left|]. simpl.
  destruct (IH c1) as [[d' c2] ->]; [|simpl; eauto].
  intros k' x c0 Hx. eapply Hf. by right.
Qed.

(** With fuel for its depth, the visitor of the values returns. *)
Lemma values_visit_total (fuel : nat) (v : value) (c : bool) :
  (depth v < fuel)%nat → ∃ r, values_visit fuel v c = Ok r.
Proof.
  revert v c. induction fuel as [|fuel IH]; intros v c Hd; [lia|].
  destruct v as [| | | |l|d]; simpl values_visit; eauto.
  - destruct (each_element_total (values_visit fuel) l c) as [[l' c'] ->]; [|simpl; eauto].
    intros x c0 Hx. apply IH. apply depth_element in Hx. lia.
  - destruct (visit_image_total d c) as (d1 & c1 & -> & Hd1). simpl.
    destruct (each_item_total (values_visit fuel) d1 c1) as [[d' c'] ->]; [|simpl; eauto].
    intros k x c0 Hx. apply IH. apply depth_item in Hx. lia.
Qed.

Lemma update_values_yaml_data_total (data : value) :
  ∃ r, update_values_yaml_data data = Ok r.
Proof. apply values_visit_total. lia. Qed.







End ValuesFacts.

Section SchemaFacts.

Import Py Doc Migrate.

Lemma schema_item_string visit (s : str) (c : bool) :
  ∃ c', schema_item visit (VStr s) c = Ok (VStr (namespace_prefix_rewrite s), c').
Proof.
  unfold schema_item. rewrite rewrite_schema_string_eq. simpl.
  case_bool_decide as Heq; [|eauto]. rewrite Heq. eauto.
Qed.


(** With fuel for its depth, the visitor returns the document in which
    the strings at keys are rewritten. *)
Lemma schema_visit_spec (fuel : nat) (v : value) (c : bool) :
  (depth v < fuel)%nat →
  ∃ c', schema_visit fuel v c
        = Ok (rewrite_keyed_strings namespace_prefix_rewrite v, c').
Proof.
  revert v c. induction fuel as [|fuel IH]; intros v c Hd; [lia|].
  destruct v as [| | | |l|d]; simpl; eauto.
  - destruct (each_element_map (schema_visit fuel)
                (rewrite_keyed_strings namespace_prefix_rewrite) l c) as [c' ->].
    + intros x c0 Hx. apply IH. apply depth_element in Hx. lia.
    + simpl. eauto.
  - destruct (each_item_map (schema_item (schema_visit fuel))
                (fun x => match x with
                          | VStr s => VStr (namespace_prefix_rewrite s)
                          | _ => rewrite_keyed_strings namespace_prefix_rewrite x
                          end) d c) as [c' ->].
    + intros k x c0 Hx. apply depth_item in Hx.
      destruct x; try (apply IH; lia). apply schema_item_string.
    + simpl. eauto.
Qed.







End SchemaFacts.

(* ================================================================== *)
(** * The rewriter of a chart's metadata *)
(* ================================================================== *)

Section ChartFacts.

Import Py Re Doc Migrate.

Lemma rewrite_strings_from (f : str → str) (items acc : list value) (c : bool) :
  ∃ c',
    foldl (fun '(new_items, changed) item =>
             match item with
             | VStr s =>
                 let new := f s in
                 (new_items ++ [VStr new], if bool_decide (new = s) then changed else true)
             | _ => (new_items ++ [item], changed)
             end)
          (acc, c) items
    = (acc ++ map (on_string f) items, c')
    ∧ ((∀ s, VStr s ∈ items → f s = s) → c' = c).
Proof.
  revert acc c. induction items as [|item items IH]; intros acc c.
  - exists c. by rewrite app_nil_r.
  - assert (∀ x : value, acc ++ x :: map (on_string f) items
                         = (acc ++ [x]) ++ map (on_string f) items) as Happ.
    { intros x. by rewrite <- app_assoc. }
    destruct item as [| | |s| |].
    4:{ destruct (IH (acc ++ [VStr (f s)])
                    (if bool_decide (f s = s) then c else true)) as (c' & Heq & Hc).
        exists c'. split; [simpl map; rewrite Happ; exact Heq|].
        intros Hfix. rewrite Hc.
        - rewrite bool_decide_eq_true_2; [done|]. apply Hfix. left.
        - intros s' Hs'. apply Hfix. by right. }
    all: match goal with
         | |- context [foldl _ _ (?x :: _)] =>
             destruct (IH (acc ++ [x]) c) as (c' & Heq & Hc)
         end;
      exists c'; (split; [simpl map; rewrite Happ; exact Heq|]);
      intros Hfix; apply Hc; intros s' Hs'; apply Hfix; by right.
Qed.

Lemma rewrite_strings_map (f : str → str) (items : list value) (c : bool) :
  ∃ c', rewrite_strings f items c = (map (on_string f) items, c')
        ∧ ((∀ s, VStr s ∈ items → f s = s) → c' = c).
Proof. apply (rewrite_strings_from f items [] c). Qed.

Lemma map_on_string_fixed (f : str → str) (items : list value) :
  (∀ s, VStr s ∈ items → f s = s) → map (on_string f) items = items.
Proof.
  induction items as [|item items IH]; intros Hfix; [done|]. simpl.
  rewrite IH by (intros s Hs; apply Hfix; by right). f_equal.
  destruct item; try done. simpl. f_equal. apply Hfix. left.
Qed.



Lemma items_differ_refl (items : list value) : items_differ items items = false.
Proof.
  induction items as [|item items IH]; [done|].
  destruct item; simpl; try done. by rewrite bool_decide_eq_true_2.
Qed.

Lemma items_differ_fixed (f : str → str) (items : list value) :
  items_differ (map (on_string f) items) items = false →
  ∀ s, VStr s ∈ items → f s = s.
Proof.
  induction items as [|item items IH]; intros Hd s Hs; [by apply elem_of_nil in Hs|].
  apply elem_of_cons in Hs as [<-|Hs].
  - simpl in Hd. apply orb_false_iff in Hd as [Hd _].
    apply negb_false_iff in Hd. by apply bool_decide_eq_true_1 in Hd.
  - apply IH; [|done]. destruct item; simpl in Hd; try done.
    by apply orb_false_iff in Hd as [_ Hd].
Qed.




(** ** The steps of [update_chart_yaml]

    Every step reads one key of the document and writes no other; and a
    step changes nothing more in a document that has, at its key, what
    the step has left there. *)

Lemma chart_annotations_frame (d d' : dict) (c c' : bool) (k : str) :
  chart_annotations d c = Ok (d', c') → k ≠ "annotations" → get k d' = get k d.
Proof.
  unfold chart_annotations. intros H Hk.
  match type of H with
  | mbind _ ?m = _ =>
      destruct m as [a|e]; unfold mbind, res_bind, bind in H; cbv beta iota in H; [|done]
  end.
  destruct (get "images" a) as [[| | |images|images|]|]; try by injection H as <- <-.
  - case_bool_decide; injection H as <- <-; [done|]. by rewrite get_set_ne.
  - destruct (rewrite_strings _ images c) as [new c1].
    destruct (items_differ new images); injection H as <- <-; [|done].
    by rewrite get_set_ne.
Qed.



Lemma contains_trans (s p u : str) :
  contains s p = true → contains p u = true → contains s u = true.
Proof.
  rewrite !contains_spec. intros (b & a & ->) (b' & a' & ->).
  exists (b ++ b'), (a' ++ a). by rewrite <- !app_assoc.
Qed.


Lemma chart_home_frame (d d' : dict) (c c' : bool) (k : str) :
  chart_home d c = (d', c') → k ≠ "home" → get k d' = get k d.
Proof.
  unfold chart_home. intros H Hk.
  destruct (get "home" d) as [[| | |home| |]|]; try by injection H as <- <-.
  case_bool_decide; injection H as <- <-; [done|]. by rewrite get_set_ne.
Qed.


Lemma chart_sources_frame (d d' : dict) (c c' : bool) (k : str) :
  chart_sources d c = (d', c') → k ≠ "sources" → get k d' = get k d.
Proof.
  unfold chart_sources. intros H Hk.
  destruct (get "sources" d) as [[| | | |sources|]|]; try by injection H as <- <-.
  destruct (rewrite_strings _ sources c) as [new c1]. injection H as <- <-.
  by rewrite get_set_ne.
Qed.


Lemma rewrite_maintainer_id (m : value) (changed : bool) :
  rewrite_maintainer m changed = (m, changed).
Proof.
  unfold rewrite_maintainer. destruct m as [| | | |?|d]; try done.
  destruct (get "url" d) as [[| | |old| |]|]; try done.
  rewrite replace_same by done. by rewrite bool_decide_eq_true_2.
Qed.

Lemma chart_maintainers_id (d : dict) (c : bool) : chart_maintainers d c = (d, c).
Proof.
  unfold chart_maintainers.
  destruct (get "maintainers" d) as [[| | | |maintainers|]|] eqn:Hd; try done.
  rewrite (update_each_id _ _ _ rewrite_maintainer_id).
  by rewrite (set_get_id _ _ _ Hd).
Qed.

Lemma chart_tags_frame (d d' : dict) (c c' : bool) (k : str) :
  chart_tags d c = (d', c') → k ≠ "tags" → get k d' = get k d.
Proof.
  unfold chart_tags. intros H Hk.
  destruct (get "tags" d) as [[| | | |tags|]|]; try by injection H as <- <-.
  destruct (rewrite_strings _ tags c) as [new c1]. injection H as <- <-.
  by rewrite get_set_ne.
Qed.


Lemma chart_annotations_total (d : dict) (c : bool) :
  match get "annotations" d with
  | Some (VDict _) | None => true
  | Some v => negb (truthy v)
  end = true →
  ∃ r, chart_annotations d c = Ok r.
Proof.
  unfold chart_annotations. intros H.
  match goal with
  | |- ∃ r, mbind ?k _ = Ok r => assert (∀ a, ∃ r, k a = Ok r) as Hk
  end.
  { intros a. cbv beta.
    destruct (get "images" a) as [[| | |images|images|]|]; try by eexists.
    - case_bool_decide; by eexists.
    - destruct (rewrite_strings _ images c) as [new c1].
      destruct (items_differ new images); by eexists. }
  destruct (get "annotations" d) as [v|]; [|apply Hk].
  destruct (truthy v) eqn:Hv; [|apply Hk].
  destruct v; try done. apply Hk.
Qed.

Lemma chart_dependencies_total (d : dict) (c : bool) :
  match get "dependencies" d with
  | Some (VList _) | Some (VDict _) | Some (VStr _) | None => true
  | Some v => negb (truthy v)
  end = true →
  ∃ r, chart_dependencies d c = Ok r.
Proof.
  unfold chart_dependencies. intros H.
  destruct (get "dependencies" d) as [[|b|q|s|deps|a]|]; try by eexists.
  - simpl in H. apply negb_true_iff in H as ->. by eexists.
  - apply negb_true_iff in H. rewrite H. by eexists.
  - destruct (update_each _ deps c). by eexists.
Qed.

(** [update_chart_yaml] returns on a document of the expected shape. *)
Lemma update_chart_yaml_data_total (data : value) :
  chart_shaped data = true → ∃ r, update_chart_yaml_data data = Ok r.
Proof.
  destruct data as [| | | | |d]; try by eexists.
  simpl. intros [Ha Hd]%andb_true_iff.
  destruct (chart_annotations_total d false Ha) as [[d1 c1] H1]. rewrite H1.
  unfold mbind, res_bind, bind. cbv beta iota.
  destruct (chart_dependencies_total d1 c1) as [[d2 c2] H2].
  { by rewrite (chart_annotations_frame _ _ _ _ _ H1). }
  rewrite H2. cbv beta iota.
  destruct (chart_home d2 c2) as [d3 c3]. destruct (chart_sources d3 c3) as [d4 c4].
  destruct (chart_maintainers d4 c4) as [d5 c5]. destruct (chart_tags d5 c5) as [d6 c6].
  by eexists.
Qed.


End ChartFacts.

(* ================================================================== *)
(** * The functions on files and the run *)
(* ================================================================== *)

Section RunFacts.

Import Py Doc Migrate.

Variable yaml_load : str → option value.
Variable yaml_dump : value → str.
Variable json_loads : str → option value.
Variable json_dumps : value → str.
Variable root_parts : list str.

(** A file that the YAML parser rejects is answered with [False], and
    nothing is written. *)
Lemma update_chart_yaml_unparsed (path : list str) (text : str) (fs : tree) :
  fs !! path = Some text → yaml_load text = None →
  update_chart_yaml yaml_load yaml_dump path fs = Ok (fs, false).
Proof.
  intros Hfs Hload. unfold update_chart_yaml, load_yaml. rewrite Hfs. simpl.
  by rewrite Hload.
Qed.

Lemma update_values_yaml_unparsed (path : list str) (text : str) (fs : tree) :
  fs !! path = Some text → yaml_load text = None →
  update_values_yaml yaml_load yaml_dump path fs = Ok (fs, false).
Proof.
  intros Hfs Hload. unfold update_values_yaml, load_yaml. rewrite Hfs. simpl.
  by rewrite Hload.
Qed.

Lemma update_values_schema_json_unparsed (path : list str) (text : str) (fs : tree) :
  fs !! path = Some text → json_loads text = None →
  update_values_schema_json json_loads json_dumps path fs = Ok (fs, false).
Proof.
  intros Hfs Hload. unfold update_values_schema_json. rewrite Hfs. simpl.
  by rewrite Hload.
Qed.

Lemma update_chart_yaml_own : writes_own_path (update_chart_yaml yaml_load yaml_dump).
Proof.
  intros p fs fs' c H q Hq. unfold update_chart_yaml in H.
  destruct (load_yaml _ p fs) as [data|]; [|by injection H as <- <-].
  destruct (update_chart_yaml_data data) as [[data' [|]]|]; simpl in H; [| |done].
  - injection H as <- <-. unfold dump_yaml. by rewrite lookup_insert_ne.
  - by injection H as <- <-.
Qed.

Lemma update_values_yaml_own : writes_own_path (update_values_yaml yaml_load yaml_dump).
Proof.
  intros p fs fs' c H q Hq. unfold update_values_yaml in H.
  destruct (load_yaml _ p fs) as [data|]; [|by injection H as <- <-].
  destruct (update_values_yaml_data data) as [[data' [|]]|]; simpl in H; [| |done].
  - injection H as <- <-. unfold dump_yaml. by rewrite lookup_insert_ne.
  - by injection H as <- <-.
Qed.

Lemma update_values_schema_json_own :
  writes_own_path (update_values_schema_json json_loads json_dumps).
Proof.
  intros p fs fs' c H q Hq. unfold update_values_schema_json in H.
  destruct (fs !! p ≫= json_loads) as [data|]; [|by injection H as <- <-].
  destruct (update_values_schema_json_data data) as [[data' [|]]|]; simpl in H; [| |done].
  - injection H as <- <-. by rewrite lookup_insert_ne.
  - by injection H as <- <-.
Qed.

Lemma safe_text_replace_own (readme_mode : list str → bool) :
  writes_own_path (fun path fs => Ok (safe_text_replace root_parts path (readme_mode path) fs)).
Proof.
  intros p fs fs' c H q Hq. injection H as H. unfold safe_text_replace in H.
  destruct (fs !! p) as [orig|]; [|by injection H as <- <-].
  case_bool_decide; injection H as <- <-; [done|]. by rewrite lookup_insert_ne.
Qed.

(** The loop goes on after a file that its rewriter leaves alone: with the
    same tree and the same report. *)
Lemma for_each_skips (f : list str → tree → res (tree * bool)) (path : list str)
    (rest : list (list str)) (fs : tree) (cf : list str) :
  f path fs = Ok (fs, false) →
  for_each root_parts f (path :: rest) fs cf = for_each root_parts f rest fs cf.
Proof. intros Hf. simpl. by rewrite Hf. Qed.

(** A loop keeps a file that its rewriter leaves alone. *)
Lemma for_each_keeps (f : list str → tree → res (tree * bool)) (path : list str) (text : str)
    (paths : list (list str)) (fs fs' : tree) (cf cf' : list str) :
  writes_own_path f →
  (path ∈ paths → ∀ fs, fs !! path = Some text → f path fs = Ok (fs, false)) →
  for_each root_parts f paths fs cf = Ok (fs', cf') →
  fs !! path = Some text → fs' !! path = Some text.
Proof.
  intros Hown. revert fs cf. induction paths as [|p paths IH]; intros fs cf Hf; simpl.
  - by intros [= <- <-].
  - destruct (f p fs) as [[fs1 c]|] eqn:Hp; simpl; [|done].
    intros Hrest Hfs. eapply IH; [|exact Hrest|].
    + intros Hin. apply Hf. by right.
    + destruct (decide (p = path)) as [->|Hne].
      * rewrite Hf in Hp; [|left|done]. by injection Hp as <- <-.
      * by rewrite (Hown _ _ _ _ Hp path).
Qed.

Lemma glob_chart_file_name (tl name : str) (fs : tree) (path : list str) :
  path ∈ glob_chart_file tl name fs → name_of path = name.
Proof.
  unfold glob_chart_file. intros [_ H]%list_elem_of_In%filter_In.
  destruct path as [|t [|c [|n [|]]]]; try done.
  apply andb_prop in H as [_ H]. by apply bool_decide_eq_true in H.
Qed.

(** The walk of step 2 passes over the names of the structure-aware
    pass. *)
Lemma text_targets_not_structured (fs : tree) (path : list str) :
  name_of path ∈ structured_names → path ∉ text_targets root_parts fs.
Proof.
  intros Hname [_ H]%list_elem_of_In%filter_In.
  apply andb_prop in H as [_ H]. apply negb_true_iff, bool_decide_eq_false in H. done.
Qed.

Lemma structural_pass_keeps (tl : str) (path : list str) (text : str)
    (fs fs' : tree) (cf cf' : list str) :
  (name_of path ∈ strs ["Chart.yaml"; "values.yaml"] → yaml_load text = None) →
  (name_of path = ("values.schema.json" : str) → json_loads text = None) →
  structural_pass yaml_load yaml_dump json_loads json_dumps root_parts tl (fs, cf)
  = Ok (fs', cf') →
  fs !! path = Some text → fs' !! path = Some text.
Proof.
  intros Hyaml Hjson. unfold structural_pass.
  destruct (for_each _ (update_chart_yaml _ _) _ fs cf) as [[fs1 cf1]|] eqn:H1;
    simpl; [|done].
  destruct (for_each _ (update_values_yaml _ _) _ fs1 cf1) as [[fs2 cf2]|] eqn:H2;
    simpl; [|done].
  intros H3 Hfs.
  eapply for_each_keeps in H1; [|apply update_chart_yaml_own| |exact Hfs].
  2:{ intros Hin%glob_chart_file_name fs0 Hfs0.
      eapply update_chart_yaml_unparsed; [done|]. apply Hyaml. rewrite Hin. left. }
  eapply for_each_keeps in H2; [|apply update_values_yaml_own| |exact H1].
  2:{ intros Hin%glob_chart_file_name fs0 Hfs0.
      eapply update_values_yaml_unparsed; [done|]. apply Hyaml. rewrite Hin. right. left. }
  eapply for_each_keeps in H3; [done|apply update_values_schema_json_own| |exact H2].
  intros Hin%glob_chart_file_name fs0 Hfs0.
  eapply update_values_schema_json_unparsed; [done|]. by apply Hjson.
Qed.

#[local] Arguments structural_pass : simpl never.
#[local] Arguments text_pass : simpl never.

Lemma structural_passes_keep (tls : list str) (path : list str) (text : str)
    (st : res (tree * list str)) (fs' : tree) (cf' : list str) :
  (name_of path ∈ strs ["Chart.yaml"; "values.yaml"] → yaml_load text = None) →
  (name_of path = ("values.schema.json" : str) → json_loads text = None) →
  foldl (fun st tl =>
           st ← st;
           structural_pass yaml_load yaml_dump json_loads json_dumps root_parts tl st)
        st tls = Ok (fs', cf') →
  ∀ fs cf, st = Ok (fs, cf) → fs !! path = Some text → fs' !! path = Some text.
Proof.
  intros Hyaml Hjson. revert st. induction tls as [|tl tls IH]; intros st; simpl.
  - intros -> fs cf [= <- <-]. done.
  - intros Hfold fs cf -> Hfs. simpl in Hfold.
    destruct (structural_pass _ _ _ _ _ tl (fs, cf)) as [[fs1 cf1]|e] eqn:Hpass.
    + eapply IH; [exact Hfold|done|]. by eapply structural_pass_keeps.
    + exfalso. clear -Hfold. induction tls as [|tl' tls IH']; simpl in Hfold; [done|].
      by apply IH'.
Qed.

Lemma main_keeps (a : args) (fs : tree) (out : outcome) (path : list str) (text : str) :
  (name_of path ∈ strs ["Chart.yaml"; "values.yaml"] → yaml_load text = None) →
  (name_of path = ("values.schema.json" : str) → json_loads text = None) →
  name_of path ∈ structured_names →
  rename_folders a = false →
  main yaml_load yaml_dump json_loads json_dumps root_parts a fs = Ok out →
  fs !! path = Some text → files_after out !! path = Some text.
Proof.
  intros Hyaml Hjson Hname Hrename. unfold main. rewrite Hrename.
  destruct (foldl _ _ _) as [[fs1 cf1]|] eqn:Hfold; simpl; [|done].
  destruct (text_pass root_parts (fs1, cf1)) as [[fs2 cf2]|] eqn:Htext; simpl; [|done].
  intros [= <-] Hfs. simpl.
  pose proof (structural_passes_keep _ path text _ _ _ Hyaml Hjson Hfold fs [] eq_refl Hfs)
    as Hfs1.
  unfold text_pass in Htext.
  eapply (for_each_keeps _ path text); [|  |exact Htext|exact Hfs1].
  - apply (safe_text_replace_own
             (fun path => bool_decide (lower (suffix (name_of path)) = (".md" : str)))).
  - by intros ?%text_targets_not_structured.
Qed.

End RunFacts.

(** Claim C6. A structured file ([Chart.yaml], [values.yaml] or
    [values.schema.json]) whose content the parser of its role rejects: the
    structural rewriter of the role answers [False] for it, does not raise
    and writes nothing; the walk of the text rewriter passes over it, for
    its name; the loop that met it goes on with the files that remain, on
    the same tree and with the same report; and at the end of a run that
    does not rename, the file holds what it held. *)
Theorem parse_failure_skipped
    (yaml_load : str → option value) (yaml_dump : value → str)
    (json_loads : str → option value) (json_dumps : value → str)
    (root_parts : list str) (fs : tree) (path : list str) (text : str) :
  fs !! path = Some text →
  Migrate.name_of path ∈ Migrate.structured_names →
  (Migrate.name_of path ∈ strs ["Chart.yaml"; "values.yaml"] → yaml_load text = None) →
  (Migrate.name_of path = ("values.schema.json" : str) → json_loads text = None) →
  (Migrate.name_of path = ("Chart.yaml" : str) →
   Migrate.update_chart_yaml yaml_load yaml_dump path fs = Py.Ok (fs, false))
  ∧ (Migrate.name_of path = ("values.yaml" : str) →
     Migrate.update_values_yaml yaml_load yaml_dump path fs = Py.Ok (fs, false))
  ∧ (Migrate.name_of path = ("values.schema.json" : str) →
     Migrate.update_values_schema_json json_loads json_dumps path fs = Py.Ok (fs, false))
  ∧ (∀ fs' : tree, path ∉ Migrate.text_targets root_parts fs')
  ∧ (∀ (f : list str → tree → Py.res (tree * bool)) (rest : list (list str))
       (changed_files : list str),
        f path fs = Py.Ok (fs, false) →
        Migrate.for_each root_parts f (path :: rest) fs changed_files
        = Migrate.for_each root_parts f rest fs changed_files)
  ∧ (∀ (a : Migrate.args) (out : Migrate.outcome),
        Migrate.rename_folders a = false →
        Migrate.main yaml_load yaml_dump json_loads json_dumps root_parts a fs = Py.Ok out →
        Migrate.files_after out !! path = Some text).
Proof.
  intros Hfs Hname Hyaml Hjson. split_and!.
  - intros Hn. eapply update_chart_yaml_unparsed; [done|]. apply Hyaml. rewrite Hn. left.
  - intros Hn. eapply update_values_yaml_unparsed; [done|].
    apply Hyaml. rewrite Hn. right. left.
  - intros Hn. eapply update_values_schema_json_unparsed; [done|]. by apply Hjson.
  - intros fs'. by apply text_targets_not_structured.
  - intros f rest cf Hf. by apply for_each_skips.
  - intros a out Hrename Hmain. by eapply main_keeps.
Qed.

Lemma parse_failure_skipped_witness :
  Migrate.update_chart_yaml (fun _ => None) (fun _ => [])
    (strs ["bitnami"; "nginx"; "Chart.yaml"])
    {[ strs ["bitnami"; "nginx"; "Chart.yaml"] := ("name: [nginx" : str) ]}
  = Py.Ok ({[ strs ["bitnami"; "nginx"; "Chart.yaml"] := ("name: [nginx" : str) ]}, false)
  ∧ strs ["bitnami"; "nginx"; "Chart.yaml"]
    ∉ Migrate.text_targets (strs ["srv"; "charts"])
        {[ strs ["bitnami"; "nginx"; "Chart.yaml"] := ("name: [nginx" : str) ]}.
Proof.
  destruct (parse_failure_skipped (fun _ => None) (fun _ => []) (fun _ => None) (fun _ => [])
              (strs ["srv"; "charts"])
              {[ strs ["bitnami"; "nginx"; "Chart.yaml"] := ("name: [nginx" : str) ]}
              (strs ["bitnami"; "nginx"; "Chart.yaml"]) "name: [nginx")
    as (Hchart & _ & _ & Htext & _).
  - vm_compute. reflexivity.
  - vm_compute. left.
  - reflexivity.
  - reflexivity.
  - split; [apply Hchart; reflexivity | apply Htext].
Defined.

(** Claim C8, as the code has it. For every schema document the rewriter
    returns, and what it returns is the document in which the rewrite of
    the namespace prefix is applied to every string that is the value of a
    key of an object, at any depth, also in objects that are elements of
    arrays. A string that is an element of an array, or the document
    itself, is returned as it is. *)
Theorem schema_strings_at_keys_rewritten :
  (∀ data : value,
      ∃ changed,
        Migrate.update_values_schema_json_data data
        = Py.Ok (Migrate.rewrite_keyed_strings Migrate.namespace_prefix_rewrite data,
                 changed))
  ∧ (∀ v : str,
        Migrate.rewrite_schema_string v = Py.Ok (Migrate.namespace_prefix_rewrite v))
  ∧ (∀ (f : str → str) (k s : str),
        Migrate.rewrite_keyed_strings f (VDict [(k, VStr s)]) = VDict [(k, VStr (f s))])
  ∧ (∀ (f : str → str) (k s : str),
        Migrate.rewrite_keyed_strings f (VList [VDict [(k, VStr s)]])
        = VList [VDict [(k, VStr (f s))]])
  ∧ (∀ (f : str → str) (items : list str),
        Migrate.rewrite_keyed_strings f (VList (VStr <$> items)) = VList (VStr <$> items))
  ∧ (∀ (f : str → str) (s : str), Migrate.rewrite_keyed_strings f (VStr s) = VStr s).
Proof.
  split_and!; try done.
  - intros data. apply schema_visit_spec. lia.
  - apply rewrite_schema_string_eq.
  - intros f items. simpl. f_equal. induction items as [|s items IH]; [done|].
    simpl. f_equal. apply IH.
Qed.

(** Claim C8 fails as stated: a string of an [examples] array with the
    legacy namespace is returned as it is, and the document is reported
    unchanged, while the same string at a key is rewritten. *)
Lemma schema_array_string_kept :
  Migrate.update_values_schema_json_data
    (VDict [("examples" : str, VList [VStr "bitnami/nginx"])])
  = Py.Ok (VDict [("examples" : str, VList [VStr "bitnami/nginx"])], false)
  ∧ Migrate.update_values_schema_json_data
      (VDict [("default" : str, VStr "bitnami/nginx")])
    = Py.Ok (VDict [("default" : str, VStr "helmhubio/nginx")], true).
Proof. split; vm_compute; reflexivity. Qed.






(** Two matches that share a [/]: the scan rewrites the first only. *)
Example sub_overlap :
  Re.sub Re.tree_blob_path "/tree/main/bitnami/tree/main/bitnami/"
  = ("/tree/main/helmhubio/tree/main/bitnami/" : str).
Proof. vm_compute. reflexivity. Qed.

(** The namespace rule takes the path of a container for a mention. *)
Example sub_ns :
  Re.sub (Re.namespace_mention Re.is_lower_name_char "helmhubio") "see /opt/bitnami/app and bitnami/bitnami/x"
  = ("see /opt/helmhubio/app and helmhubio/bitnami/x" : str).
Proof. vm_compute. reflexivity. Qed.

(** Claim C10. The text rewriter maps a [bitnami/<name>] token to different
    replacements by the role of the file: in a documentation file it
    becomes [helmhubio/<name>], in a CI-workflow file (a path that contains
    [.github]) it becomes [helmhub-io/<name>]; the two outputs differ. This
    holds for every non-empty name of lower-case letters, digits, [_], [.]
    and [-], for the text alone and for a file that holds it. *)
Theorem text_roles_differ (name : str) :
  name ≠ [] →
  (∀ c, c ∈ name → Re.is_lower_name_char c = true) →
  Migrate.safe_text true false ("bitnami/" ++ name) = "helmhubio/" ++ name
  ∧ Migrate.safe_text false true ("bitnami/" ++ name) = "helmhub-io/" ++ name
  ∧ Migrate.safe_text true false ("bitnami/" ++ name)
    ≠ Migrate.safe_text false true ("bitnami/" ++ name)
  ∧ ∀ (root_parts path : list str) (fs : tree),
      fs !! path = Some ("bitnami/" ++ name) →
      (Py.contains (Migrate.path_str root_parts path) ".github" = false →
       Migrate.safe_text_replace root_parts path true fs
       = (<[path := "helmhubio/" ++ name]> fs, true))
      ∧ (Py.contains (Migrate.path_str root_parts path) ".github" = true →
         Migrate.safe_text_replace root_parts path false fs
         = (<[path := "helmhub-io/" ++ name]> fs, true)).
Proof.
  intros Hne Hcls.
  pose proof (safe_text_docs_token name Hne Hcls) as Hdocs.
  pose proof (safe_text_ci_token name Hne Hcls) as Hci.
  split_and!; [done..| |].
  - rewrite Hdocs, Hci. intros H. discriminate H.
  - intros root_parts path fs Hfs. unfold Migrate.safe_text_replace. rewrite Hfs.
    split; intros ->.
    + rewrite Hdocs. rewrite bool_decide_eq_false_2; [done|]. intros H. discriminate H.
    + rewrite Hci. rewrite bool_decide_eq_false_2; [done|]. intros H. discriminate H.
Qed.

Lemma text_roles_differ_witness :
  Migrate.safe_text true false ("bitnami/" ++ "nginx") = ("helmhubio/" ++ "nginx" : str)
  ∧ Migrate.safe_text false true ("bitnami/" ++ "nginx") = ("helmhub-io/" ++ "nginx" : str).
Proof.
  assert (("nginx" : str) ≠ []) as Hne by done.
  assert (∀ c, c ∈ ("nginx" : str) → Re.is_lower_name_char c = true) as Hcls.
  { intros c Hc. apply list_elem_of_In in Hc. simpl in Hc.
    repeat (destruct Hc as [<-|Hc]; [reflexivity|]). destruct Hc. }
  destruct (text_roles_differ "nginx" Hne Hcls) as (H1 & H2 & _).
  split; [exact H1 | exact H2].
Defined.

(** Claim C4, which the code breaks. In a documentation file and in a
    CI-workflow file the text rewriter rewrites the in-container path
    [/opt/bitnami/app]: the rule for namespace mentions matches
    [bitnami/app] after the [/]. Only the rules that every text file gets
    leave the path alone. *)
Theorem in_container_path_rewritten :
  Migrate.safe_text true false "Logs are kept in /opt/bitnami/app/logs."
  = ("Logs are kept in /opt/helmhubio/app/logs." : str)
  ∧ Migrate.safe_text false true "run: ls /opt/bitnami/app"
    = ("run: ls /opt/helmhub-io/app" : str)
  ∧ Migrate.safe_text false false "Logs are kept in /opt/bitnami/app/logs."
    = ("Logs are kept in /opt/bitnami/app/logs." : str).
Proof. split_and!; vm_compute; reflexivity. Qed.

(** Claim C7, which the code breaks. The loop over the dependencies of a
    chart replaces the registry [oci://registry-1.docker.io/helmhubiocharts]
    by itself: it never alters the document and never raises the flag. A
    dependency on the legacy registry
    [oci://registry-1.docker.io/bitnamicharts] stays as it is, and so does
    an annotation image under [docker.io/bitnami/]; of the annotation
    images only those under [docker.io/helmhubiolegacy/] are rewritten. *)
Theorem chart_dependencies_never_rewritten :
  (∀ (data : Doc.dict) (changed : bool) (r : Doc.dict * bool),
      Migrate.chart_dependencies data changed = Py.Ok r → r = (data, changed))
  ∧ (let chart :=
       VDict [("name" : str, VStr "wordpress");
              ("dependencies" : str,
               VList [VDict [("name" : str, VStr "common");
                             ("repository" : str,
                              VStr "oci://registry-1.docker.io/bitnamicharts")]]);
              ("annotations" : str,
               VDict [("images" : str, VStr "docker.io/bitnami/wordpress:6.4.2")])] in
     Migrate.update_chart_yaml_data chart = Py.Ok (chart, false))
  ∧ Migrate.update_chart_yaml_data
      (VDict [("annotations" : str,
               VDict [("images" : str, VStr "docker.io/helmhubiolegacy/wordpress:6.4.2")])])
    = Py.Ok (VDict [("annotations" : str,
                     VDict [("images" : str, VStr "docker.io/helmhubio/wordpress:6.4.2")])],
             true).
Proof.
  split_and!.
  - apply chart_dependencies_id.
  - vm_compute. reflexivity.
  - vm_compute. reflexivity.
Qed.

Lemma chart_dependencies_never_rewritten_witness :
  Migrate.chart_dependencies
    [("dependencies" : str,
      VList [VDict [("repository" : str, VStr "oci://registry-1.docker.io/bitnamicharts")]])]
    false
  = Py.Ok ([("dependencies" : str,
             VList [VDict [("repository" : str,
                            VStr "oci://registry-1.docker.io/bitnamicharts")]])],
           false).
Proof.
  destruct chart_dependencies_never_rewritten as (H & _).
  destruct (Migrate.chart_dependencies _ _) as [r|e] eqn:Hr.
  - by rewrite (H _ _ _ Hr).
  - vm_compute in Hr. discriminate Hr.
Defined.

(** Claim C2, which the code breaks. [main] hands every file to the
    rewriters, and the rewriters write what they change, whatever the mode:
    [--apply] is read only by the renames and by the report. A dry run
    leaves the tree as the applying run does, and rewrites the README of
    the example on disk. *)
Theorem dry_run_writes
    (yaml_load : str → option value) (yaml_dump : value → str)
    (json_loads : str → option value) (json_dumps : value → str) :
  (∀ (root_parts : list str) (fs : tree),
      Migrate.main yaml_load yaml_dump json_loads json_dumps root_parts
        {| Migrate.apply := false; Migrate.rename_folders := false |} fs
      = Migrate.main yaml_load yaml_dump json_loads json_dumps root_parts
          {| Migrate.apply := true; Migrate.rename_folders := false |} fs)
  ∧ (let fs : tree := {[ strs ["README.md"] := ("image: docker.io/bitnami/nginx" : str) ]} in
     ∃ out,
       Migrate.main yaml_load yaml_dump json_loads json_dumps (strs ["srv"; "charts"])
         {| Migrate.apply := false; Migrate.rename_folders := false |} fs
       = Py.Ok out
       ∧ Migrate.files_after out !! strs ["README.md"]
         = Some ("image: docker.io/helmhubio/nginx" : str)
       ∧ Migrate.changed_files out = strs ["/srv/charts/README.md"]).
Proof.
  split; [done|].
  eexists. split_and!.
  - vm_compute. reflexivity.
  - vm_compute. reflexivity.
  - vm_compute. reflexivity.
Qed.

(* ================================================================== *)
(** * Further properties of the tag matcher *)
(* ================================================================== *)

Section TagMatcherMore.

Import Py TagMatcher.

Lemma before_first_app (sep : ascii) (s rest : str) :
  before_first sep (before_first sep s ++ sep :: rest) = before_first sep s.
Proof.
  induction s as [|c s IH]; simpl.
  - by rewrite Ascii.eqb_refl.
  - destruct (Ascii.eqb c sep) eqn:Hc; simpl; [by rewrite Ascii.eqb_refl|].
    by rewrite Hc, IH.
Qed.

Lemma before_first_idem (sep : ascii) (s : str) :
  before_first sep (before_first sep s) = before_first sep s.
Proof.
  induction s as [|c s IH]; simpl; [done|].
  destruct (Ascii.eqb c sep) eqn:Hc; simpl; [done|]. by rewrite Hc, IH.
Qed.

(** The major component is the first component of the major.minor
    prefix. *)
Lemma major_of_major_minor (missing_tag : str) :
  major_of missing_tag = before_first "." (major_minor_of missing_tag).
Proof.
  unfold major_of, major_minor_of.
  destruct (split_head "." (version_core missing_tag)) as [ws ->].
  destruct ws as [|w ws]; simpl.
  - by rewrite before_first_idem.
  - by rewrite before_first_app.
Qed.

End TagMatcherMore.

(** X1. A tag that [find_best_matching_tag] returns is a fixed point: asked
    for that tag with the same list, the function returns it again, by the
    exact match. *)
Theorem find_best_matching_tag_fixed_point (missing_tag tag : str) (available_tags : list str) :
  TagMatcher.find_best_matching_tag missing_tag available_tags = Py.Ok (Some tag) →
  TagMatcher.find_best_matching_tag tag available_tags = Py.Ok (Some tag).
Proof.
  rewrite find_best_matching_tag_resolve. intros [= H%resolve_matched_elem].
  rewrite find_best_matching_tag_resolve. unfold TagMatcher.resolve.
  by rewrite decide_True.
Qed.

Lemma find_best_matching_tag_fixed_point_witness :
  TagMatcher.find_best_matching_tag "12.1.5-debian-12-r3"
    (strs ["12.2.0-debian-12-r2"; "12.1.5-debian-12-r3"; "11.9.0-debian-12-r1"])
  = Py.Ok (Some ("12.1.5-debian-12-r3" : str)).
Proof.
  apply (find_best_matching_tag_fixed_point "12.1.1-debian-12-r1").
  vm_compute. reflexivity.
Defined.

(** X2. Of a missing tag that is not in the list, only the first two
    dot-separated components of its version count: two missing tags that
    are not available and agree on them get the same answer, whatever
    their patch levels and their suffixes after the first [-]. *)
Theorem find_best_matching_tag_same_minor (m1 m2 : str) (available_tags : list str) :
  m1 ∉ available_tags → m2 ∉ available_tags →
  TagMatcher.major_minor_of m1 = TagMatcher.major_minor_of m2 →
  TagMatcher.find_best_matching_tag m1 available_tags
  = TagMatcher.find_best_matching_tag m2 available_tags.
Proof.
  intros H1 H2 Hmm. rewrite !find_best_matching_tag_resolve. f_equal.
  unfold TagMatcher.resolve. rewrite !decide_False by done.
  by rewrite !major_of_major_minor, Hmm.
Qed.

Lemma find_best_matching_tag_same_minor_witness :
  TagMatcher.find_best_matching_tag "12.1.1-debian-12-r1"
    (strs ["12.2.0-debian-12-r2"; "12.1.5-debian-12-r3"])
  = TagMatcher.find_best_matching_tag "12.1.9-debian-11-r40"
      (strs ["12.2.0-debian-12-r2"; "12.1.5-debian-12-r3"]).
Proof.
  apply find_best_matching_tag_same_minor.
  - intros H. apply list_elem_of_In in H. simpl in H. intuition discriminate.
  - intros H. apply list_elem_of_In in H. simpl in H. intuition discriminate.
  - vm_compute. reflexivity.
Defined.

(* ================================================================== *)
(** * Further properties of the text rewriter *)
(* ================================================================== *)

Section ScanFacts.

Import Py Re Migrate.

Lemma rewritten_copy_app (rules : list (str * str)) (x s out : str) :
  rewritten rules s out → rewritten rules (x ++ s) (x ++ out).
Proof. intros H. induction x as [|c x IH]; [done|]. by apply rewritten_copy. Qed.

Lemma rewritten_sub_multi (rules : list (str * str)) (s : str) :
  patterns_nonempty rules = true → rewritten rules s (sub (multi rules) s).
Proof.
  intros Hne.
  apply (sub_multi_ind rules (fun s => rewritten rules s (sub (multi rules) s)));
    [done|apply rewritten_nil|..].
  - intros p r rest Hin _ -> IH. by apply rewritten_rule.
  - intros c s0 _ -> IH. by apply rewritten_copy.
Qed.

Lemma span_prefix (cls : ascii → bool) (s : str) : ∃ k, s = span cls s ++ k.
Proof.
  induction s as [|c s [k IH]]; simpl; [by exists []|].
  destruct (cls c); [|by eexists]. exists k. simpl. by f_equal.
Qed.

Lemma namespace_mention_Some (cls : ascii → bool) (new_ns : str) prev (s : str)
    (n : nat) (r : str) :
  namespace_mention cls new_ns prev s = Some (n, r) →
  ∃ name k, s = "bitnami/" ++ name ++ k ∧ n = length ("bitnami/" ++ name)
            ∧ r = new_ns ++ "/" ++ name ∧ name ≠ [].
Proof.
  unfold namespace_mention. destruct (word_boundary prev (head s)); [|done].
  destruct (strip "bitnami/" s) as [rest|] eqn:Hs; [|done].
  apply strip_spec in Hs as ->. simpl.
  destruct (span_prefix cls rest) as [k Hk].
  destruct (span cls rest) as [|c name] eqn:Hname; [done|].
  intros [= <- <-]. exists (c :: name), k. by rewrite <- Hk.
Qed.

Lemma namespace_mention_wf (cls : ascii → bool) (new_ns : str) :
  wf_matcher (namespace_mention cls new_ns).
Proof.
  intros prev s n r (name & k & -> & -> & _ & _)%namespace_mention_Some.
  rewrite !length_app. simpl. lia.
Qed.

(** The rule for namespace mentions replaces [bitnami/] where it
    chooses, and copies the name after it. *)
Lemma rewritten_namespace_mention (cls : ascii → bool) (new_ns : str) (s : str) :
  rewritten [("bitnami/" : str, new_ns ++ "/")] s (sub (namespace_mention cls new_ns) s).
Proof.
  unfold sub.
  apply (sub_from_ind (namespace_mention cls new_ns)
           (fun _ s out => rewritten [("bitnami/" : str, new_ns ++ "/")] s out));
    [apply namespace_mention_wf | intros; apply rewritten_nil |..].
  - intros prev x rest r res Hx Hm IH.
    apply namespace_mention_Some in Hm as (name & k & Hs & Hlen & -> & _).
    assert (x = "bitnami/" ++ name ∧ rest = k) as [-> ->].
    { rewrite app_assoc in Hs. by apply app_inj_1 in Hs. }
    rewrite <- !app_assoc. rewrite (app_assoc new_ns).
    apply rewritten_rule; [left|]. by apply rewritten_copy_app.
  - intros prev c s0 res _ IH. by apply rewritten_copy.
Qed.

Lemma brand_word_Some prev (s : str) (n : nat) (r : str) :
  brand_word prev s = Some (n, r) →
  ∃ k, s = "Bitnami" ++ k ∧ n = length ("Bitnami" : str) ∧ r = "HelmHubIO".
Proof.
  unfold brand_word. destruct (word_boundary prev (head s)); [|done].
  destruct (strip "Bitnami" s) as [rest|] eqn:Hs; [|done].
  apply strip_spec in Hs as ->. simpl.
  destruct (word_boundary _ (head rest)); [|done]. intros [= <- <-]. by exists rest.
Qed.

Lemma brand_word_wf : wf_matcher brand_word.
Proof.
  intros prev s n r (k & -> & -> & _)%brand_word_Some. simpl. lia.
Qed.

Lemma rewritten_brand_word (s : str) :
  rewritten [("Bitnami" : str, "HelmHubIO" : str)] s (sub brand_word s).
Proof.
  unfold sub.
  apply (sub_from_ind brand_word
           (fun _ s out => rewritten [("Bitnami" : str, "HelmHubIO" : str)] s out));
    [apply brand_word_wf | intros; apply rewritten_nil |..].
  - intros prev x rest r res Hx Hm IH.
    apply brand_word_Some in Hm as (k & Hs & Hlen & ->).
    apply app_inj_1 in Hs as [-> ->]; [|done].
    apply rewritten_rule; [left | done].
  - intros prev c s0 res _ IH. by apply rewritten_copy.
Qed.

(** A scan changes nothing in a text that holds none of its
    patterns. *)
Lemma rewritten_fixed (rules : list (str * str)) (s out : str) :
  rewritten rules s out → (∀ p r, (p, r) ∈ rules → contains s p = false) → out = s.
Proof.
  induction 1 as [|p r rest out Hin _ _|c s out _ IH]; intros Hfree; [done| |].
  - specialize (Hfree p r Hin). apply contains_startswith in Hfree.
    by rewrite startswith_app in Hfree.
  - f_equal. apply IH. intros p r Hin. by apply (contains_suffix [c]), (Hfree p r).
Qed.

(** A prefix of what the scan made is a prefix of the text, where the
    check [reflects] holds of it. *)
Lemma rewritten_reflect (rules : list (str * str)) (s out : str) :
  rewritten rules s out →
  ∀ u, reflects rules u = true → startswith out u = true → startswith s u = true.
Proof.
  induction 1 as [|p r rest out Hin _ _|c s out _ IH]; intros u Hu.
  - by destruct u.
  - destruct u as [|a u]; [by rewrite !startswith_nil|].
    destruct (reflects_head _ _ _ _ Hu ltac:(done) Hin) as [Hc|[_ Hp]].
    + by rewrite clash_startswith.
    + intros _. by apply startswith_app_l.
  - destruct u as [|a u]; [done|]. rewrite !startswith_cons.
    destruct (Ascii.eqb a c); [|done]. apply IH. by eapply reflects_tail.
Qed.

(** A scan brings about no occurrence of a word that its table keeps
    out. *)
Lemma rewritten_keeps_out (rules : list (str * str)) (forbidden : list str) (u : str)
    (s out : str) :
  rewritten rules s out → keeps_out forbidden rules u = true →
  (∀ f, f ∈ forbidden → contains s f = false) →
  contains s u = false → contains out u = false.
Proof.
  intros H (Hne & Hrefl & Hok)%keeps_out_spec.
  induction H as [|p r rest out Hin Hrest IH|c s out Hrest IH]; intros Hf Hu; [done| |].
  - apply contains_app_false.
    + intros r' Hr'.
      destruct (inside_ok_elem _ _ _ _ _ _ Hok Hin Hr')
        as [Hc|(u' & f & -> & Hu' & Hfin & Hcf)]; [by apply clash_startswith|].
      destruct (startswith (r' ++ out) (r' ++ u')) eqn:Hs; [|done]. exfalso.
      apply startswith_spec in Hs as [k Hk]. rewrite <- app_assoc in Hk.
      apply app_inv_head in Hk.
      assert (startswith rest u' = true) as [k' ->]%startswith_spec.
      { apply (rewritten_reflect rules rest out); [done..|]. apply startswith_spec. eauto. }
      specialize (Hf f Hfin). rewrite app_assoc in Hf.
      pose proof (contains_within [] (p ++ u') k' f Hcf) as Hc. simpl in Hc. congruence.
    + apply IH.
      * intros f Hfin. eapply contains_suffix, Hf, Hfin.
      * by eapply contains_suffix.
  - change (contains (c :: out) u) with (startswith (c :: out) u || contains out u).
    apply orb_false_iff. split.
    + destruct u as [|a u]; [done|].
      pose proof (contains_startswith _ _ Hu) as Hc.
      rewrite startswith_cons in Hc |- *. destruct (Ascii.eqb a c); [|done].
      destruct (startswith out u) eqn:Hs; [|done].
      apply (rewritten_reflect rules s out) in Hs; [congruence | done |].
      by eapply reflects_tail.
    + apply IH.
      * intros f Hfin. apply (contains_suffix [c]), Hf, Hfin.
      * by apply (contains_suffix [c]).
Qed.

End ScanFacts.

Section SafeTextFacts.

Import Py Re Migrate.

(** What follows [SAFE_TEXT_PATTERNS] in [safe_text_replace]. *)
Lemma safe_text_stages (readme_mode in_github : bool) (text : str) :
  safe_text readme_mode in_github text
  = (if in_github then sub (namespace_mention is_name_char "helmhub-io") else id)
      ((if readme_mode
        then fun t => sub (namespace_mention is_lower_name_char "helmhubio") (sub brand_word t)
        else id)
         (apply_tables SAFE_TEXT_TABLES text)).
Proof.
  unfold safe_text. rewrite apply_patterns_tables. by destruct readme_mode, in_github.
Qed.

(** The rules for the documentation and for the workflows bring about no
    occurrence of a word that their tables keep out. *)
Lemma role_rules_keep_out (readme_mode in_github : bool) (u t : str) :
  keeps_out [] [("Bitnami" : str, "HelmHubIO" : str)] u = true →
  keeps_out [] [("bitnami/" : str, "helmhubio/" : str)] u = true →
  keeps_out [] [("bitnami/" : str, "helmhub-io/" : str)] u = true →
  contains t u = false →
  contains
    ((if in_github then sub (namespace_mention is_name_char "helmhub-io") else id)
       ((if readme_mode
         then fun t => sub (namespace_mention is_lower_name_char "helmhubio")
                           (sub brand_word t)
         else id) t)) u = false.
Proof.
  intros Hb Hdocs Hci Ht.
  assert (contains
            ((if readme_mode
              then fun t => sub (namespace_mention is_lower_name_char "helmhubio")
                                (sub brand_word t)
              else id) t) u = false) as Hdoc.
  { destruct readme_mode; [|done].
    eapply (rewritten_keeps_out _ []);
      [apply (rewritten_namespace_mention is_lower_name_char "helmhubio") | exact Hdocs
      | by intros f ?%elem_of_nil |].
    eapply (rewritten_keeps_out _ []);
      [apply rewritten_brand_word | exact Hb | by intros f ?%elem_of_nil | done]. }
  destruct in_github; [|done].
  eapply (rewritten_keeps_out _ []);
    [apply (rewritten_namespace_mention is_name_char "helmhub-io") | exact Hci
    | by intros f ?%elem_of_nil | done].
Qed.

End SafeTextFacts.

(** X3. The text rewriter leaves a text as it is when the text does not
    hold [bitnami] (and, for a documentation file, does not hold [Bitnami]
    either): such a file is not written. *)
Theorem safe_text_needs_legacy_token (readme_mode in_github : bool) (text : str) :
  Py.contains text "bitnami" = false →
  (readme_mode = true → Py.contains text "Bitnami" = false) →
  Migrate.safe_text readme_mode in_github text = text.
Proof.
  intros Hb HB. rewrite safe_text_stages.
  assert (∀ p u : str, Py.contains p u = true → Py.contains text u = false →
                       Py.contains text p = false) as Hsub.
  { intros p u Hp Hu. destruct (Py.contains text p) eqn:Htp; [|done].
    by rewrite (contains_trans _ _ _ Htp Hp) in Hu. }
  rewrite apply_tables_fixed.
  2:{ intros rules p r Hrules Hin. apply (Hsub p "bitnami"); [|done].
      apply list_elem_of_In in Hrules. simpl in Hrules.
      repeat (destruct Hrules as [<-|Hrules];
              [apply list_elem_of_In in Hin; simpl in Hin;
               repeat (destruct Hin as [[= <- <-]|Hin]; [reflexivity|]); destruct Hin|]).
      destruct Hrules. }
  assert ((if readme_mode
           then fun t => Re.sub (Re.namespace_mention Re.is_lower_name_char "helmhubio")
                                (Re.sub Re.brand_word t)
           else id) text = text) as ->.
  { destruct readme_mode; [|done].
    rewrite (rewritten_fixed _ _ _ (rewritten_brand_word text)).
    - apply (rewritten_fixed _ _ _
               (rewritten_namespace_mention Re.is_lower_name_char "helmhubio" text)).
      intros p r [= -> ->]%list_elem_of_singleton. by apply (Hsub _ "bitnami").
    - intros p r [= -> ->]%list_elem_of_singleton. by apply HB. }
  destruct in_github; [|done].
  apply (rewritten_fixed _ _ _ (rewritten_namespace_mention Re.is_name_char "helmhub-io" text)).
  intros p r [= -> ->]%list_elem_of_singleton. by apply (Hsub _ "bitnami").
Qed.

Lemma safe_text_needs_legacy_token_witness :
  Migrate.safe_text true true "See /opt/helmhubio/nginx and run docker.io/helmhubio/nginx"
  = ("See /opt/helmhubio/nginx and run docker.io/helmhubio/nginx" : str).
Proof.
  apply safe_text_needs_legacy_token; [reflexivity|]. intros _. reflexivity.
Defined.

(** X4. Whatever the role of a text file, the text that the rewriter
    leaves holds none of the four literal legacy references of
    [SAFE_TEXT_PATTERNS]: each rule takes out every match of its pattern,
    and no later rule brings one back. *)
Theorem safe_text_leaves_no_legacy_reference (readme_mode in_github : bool) (text : str) :
  Py.contains (Migrate.safe_text readme_mode in_github text)
    "oci://registry-1.docker.io/bitnamicharts" = false
  ∧ Py.contains (Migrate.safe_text readme_mode in_github text) "docker.io/bitnami/" = false
  ∧ Py.contains (Migrate.safe_text readme_mode in_github text) "docker.io/bitnamilegacy/"
    = false
  ∧ Py.contains (Migrate.safe_text readme_mode in_github text) "github.com/bitnami/charts"
    = false.
Proof.
  rewrite safe_text_stages.
  unfold Migrate.SAFE_TEXT_TABLES, Re.apply_tables. cbn [foldl].
  split_and!; (apply role_rules_keep_out; [reflexivity..|]);
    repeat first
      [ eapply (sub_multi_removes _ _ _ []);
        [reflexivity | left | reflexivity | reflexivity | by intros f ?%elem_of_nil]
      | eapply (rewritten_keeps_out _ []);
        [apply rewritten_sub_multi; reflexivity | reflexivity
        | by intros f ?%elem_of_nil |] ].
Qed.

(* ================================================================== *)
(** * Further properties of the structural rewriters *)
(* ================================================================== *)

Section FlagFacts.

Import Py Re Doc Migrate.

Lemma rewrite_strings_from_false (f : str → str) (items acc new : list value) (c : bool) :
  foldl (fun '(new_items, changed) item =>
           match item with
           | VStr s =>
               let new := f s in
               (new_items ++ [VStr new], if bool_decide (new = s) then changed else true)
           | _ => (new_items ++ [item], changed)
           end)
        (acc, c) items
  = (new, false) →
  c = false ∧ new = acc ++ items.
Proof.
  revert acc c. induction items as [|item items IH]; intros acc c.
  - intros [= <- <-]. by rewrite app_nil_r.
  - cbn [foldl]. destruct item as [| | |s| |];
      try (intros [-> ->]%IH; by rewrite <- app_assoc).
    intros [Hc ->]%IH. rewrite <- app_assoc. simpl.
    case_bool_decide as Hs; [by rewrite Hs | done].
Qed.

(** A loop over strings that leaves the flag down has changed none. *)
Lemma rewrite_strings_false (f : str → str) (items new : list value) (c : bool) :
  rewrite_strings f items c = (new, false) → c = false ∧ new = items.
Proof. apply (rewrite_strings_from_false f items [] new c). Qed.

Lemma rewrite_strings_raises (f : str → str) (items new : list value) (c : bool) :
  rewrite_strings f items c = (new, true) → c = true ∨ new ≠ items.
Proof.
  intros H. destruct c; [by left|]. right. intros ->.
  destruct (rewrite_strings_map f items false) as (c' & Hr & Hc).
  rewrite H in Hr. injection Hr as Hmap <-.
  enough (true = false) by done. apply Hc.
  intros s Hs. clear -Hmap Hs. induction items as [|item items IH].
  - by apply elem_of_nil in Hs.
  - injection Hmap as Hitem Hmap. apply elem_of_cons in Hs as [<-|Hs]; [|by apply IH].
    by injection Hitem.
Qed.

Lemma keys_set (k : str) (v x : value) (d : dict) :
  get k d = Some x → (set k v d).*1 = d.*1.
Proof.
  induction d as [|[k' y] d IH]; [done|]. simpl get. simpl set.
  case_bool_decide; [done|]. intros Hg. rewrite !fmap_cons. f_equal. by apply IH.
Qed.

Lemma items_differ_map_false (f : str → str) (items : list value) :
  items_differ (map (on_string f) items) items = false → map (on_string f) items = items.
Proof. intros H. apply map_on_string_fixed. by apply items_differ_fixed. Qed.

Lemma items_differ_true_ne (new_items items : list value) :
  items_differ new_items items = true → new_items ≠ items.
Proof. intros H ->. by rewrite items_differ_refl in H. Qed.

(** ** The flag of the steps of [update_chart_yaml]

    A step that leaves the flag down has left the document as it was; a
    step that raises the flag has changed what the document has at the
    key of the step; and no step adds or removes a key. *)

Lemma chart_annotations_flag (d d' : dict) (c c' : bool) :
  chart_annotations d c = Ok (d', c') →
  d'.*1 = d.*1
  ∧ (c' = false → d' = d ∧ c = false)
  ∧ (c' = true → c = true ∨ get "annotations" d' ≠ get "annotations" d).
Proof.
  unfold chart_annotations. intros H.
  destruct (get "annotations" d) as [v|] eqn:Hd.
  2:{ injection H as <- <-. split_and!; [done|done|by left]. }
  destruct (truthy v) eqn:Hv.
  2:{ injection H as <- <-. split_and!; [done|done|by left]. }
  destruct v as [| | | | |a]; try done.
  unfold mbind, res_bind, bind in H. cbv beta iota in H.
  destruct (get "images" a) as [[| | |images|images|]|] eqn:Hi;
    try (injection H as <- <-; split_and!; [done|done|by left]).
  - case_bool_decide as Hnew; injection H as <- <-.
    + split_and!; [done|done|by left].
    + split_and!; [by eapply keys_set|done|]. intros _. right.
      rewrite get_set_eq. intros [= Ha].
      apply (f_equal (get "images")) in Ha. rewrite get_set_eq, Hi in Ha. congruence.
  - destruct (rewrite_strings_map rewrite_image_ref images c) as (c1 & Hr & Hc1).
    rewrite Hr in H.
    destruct (items_differ _ images) eqn:Hdiff; injection H as <- <-.
    + split_and!; [by eapply keys_set| |].
      * intros ->. apply rewrite_strings_false in Hr as [-> Hnew].
        rewrite Hnew in Hdiff. by rewrite items_differ_refl in Hdiff.
      * intros _. right. rewrite get_set_eq. intros [= Ha].
        apply (f_equal (get "images")) in Ha. rewrite get_set_eq, Hi in Ha.
        injection Ha as Ha. by apply items_differ_true_ne in Hdiff.
    + split_and!; [done| |].
      * intros ->. by apply rewrite_strings_false in Hr as [-> _].
      * intros ->. left. apply rewrite_strings_raises in Hr as [->|Hne]; [done|].
        by apply items_differ_map_false in Hdiff.
Qed.

Lemma chart_home_flag (d d' : dict) (c c' : bool) :
  chart_home d c = (d', c') →
  d'.*1 = d.*1
  ∧ (c' = false → d' = d ∧ c = false)
  ∧ (c' = true → c = true ∨ get "home" d' ≠ get "home" d).
Proof.
  unfold chart_home. intros H.
  destruct (get "home" d) as [[| | |home| |]|] eqn:Hd;
    try (injection H as <- <-; split_and!; [done|done|by left]).
  case_bool_decide as Hnew; injection H as <- <-.
  - split_and!; [done|done|by left].
  - split_and!; [by eapply keys_set|done|]. intros _. right.
    rewrite get_set_eq. intros [= Heq]. exact (Hnew Heq).
Qed.

Lemma chart_sources_flag (d d' : dict) (c c' : bool) :
  chart_sources d c = (d', c') →
  d'.*1 = d.*1
  ∧ (c' = false → d' = d ∧ c = false)
  ∧ (c' = true → c = true ∨ get "sources" d' ≠ get "sources" d).
Proof.
  unfold chart_sources. intros H.
  destruct (get "sources" d) as [[| | | |sources|]|] eqn:Hd;
    try (injection H as <- <-; split_and!; [done|done|by left]).
  destruct (rewrite_strings _ sources c) as [new c1] eqn:Hr. injection H as <- <-.
  split_and!; [by eapply keys_set| |].
  - intros ->. apply rewrite_strings_false in Hr as [-> ->].
    split; [|done]. by apply set_get_id.
  - intros ->. apply rewrite_strings_raises in Hr as [->|Hne]; [by left|]. right.
    rewrite get_set_eq. intros [= Heq]. exact (Hne Heq).
Qed.

Lemma chart_tags_flag (d d' : dict) (c c' : bool) :
  chart_tags d c = (d', c') →
  d'.*1 = d.*1
  ∧ (c' = false → d' = d ∧ c = false)
  ∧ (c' = true → c = true ∨ get "tags" d' ≠ get "tags" d).
Proof.
  unfold chart_tags. intros H.
  destruct (get "tags" d) as [[| | | |tags|]|] eqn:Hd;
    try (injection H as <- <-; split_and!; [done|done|by left]).
  destruct (rewrite_strings _ tags c) as [new c1] eqn:Hr. injection H as <- <-.
  split_and!; [by eapply keys_set| |].
  - intros ->. apply rewrite_strings_false in Hr as [-> ->].
    split; [|done]. by apply set_get_id.
  - intros ->. apply rewrite_strings_raises in Hr as [->|Hne]; [by left|]. right.
    rewrite get_set_eq. intros [= Heq]. exact (Hne Heq).
Qed.

(** The steps of [update_chart_yaml], one after the other. *)
Lemma update_chart_yaml_data_steps (d : dict) (data' : value) (changed : bool) :
  update_chart_yaml_data (VDict d) = Ok (data', changed) →
  ∃ d1 c1 d3 c3 d4 c4 d6,
    chart_annotations d false = Ok (d1, c1)
    ∧ chart_home d1 c1 = (d3, c3)
    ∧ chart_sources d3 c3 = (d4, c4)
    ∧ chart_tags d4 c4 = (d6, changed)
    ∧ data' = VDict d6.
Proof.
  unfold update_chart_yaml_data. intros H.
  destruct (chart_annotations d false) as [[d1 c1]|] eqn:H1; [|done].
  unfold mbind, res_bind, bind in H. cbv beta iota in H.
  destruct (chart_dependencies d1 c1) as [[d2 c2]|] eqn:H2; [|done].
  cbv beta iota in H.
  pose proof (chart_dependencies_id _ _ _ H2) as [= -> ->].
  destruct (chart_home d1 c1) as [d3 c3] eqn:H3.
  destruct (chart_sources d3 c3) as [d4 c4] eqn:H4.
  rewrite chart_maintainers_id in H.
  destruct (chart_tags d4 c4) as [d6 c6] eqn:H6. injection H as <- <-.
  by exists d1, c1, d3, c3, d4, c4, d6.
Qed.

(** ** The flag of the visitors *)

Lemma each_element_flag (f : value → bool → res (value * bool)) (l l' : list value)
    (c c' : bool) :
  (∀ x c x' c', x ∈ l → f x c = Ok (x', c') →
                (c' = false → x' = x ∧ c = false) ∧ (c' = true → c = true ∨ x' ≠ x)) →
  each_element f l c = Ok (l', c') →
  (c' = false → l' = l ∧ c = false) ∧ (c' = true → c = true ∨ l' ≠ l).
Proof.
  revert l' c c'. induction l as [|v l IH]; intros l' c c' Hf; simpl.
  - intros [= <- <-]. split; [done | by left].
  - destruct (f v c) as [[v1 c1]|] eqn:Hv; simpl; [|done].
    destruct (each_element f l c1) as [[l1 c2]|] eqn:Hl; simpl; [|done].
    intros [= <- <-].
    destruct (Hf v c v1 c1 ltac:(left) Hv) as [Hdown Hup].
    destruct (IH l1 c1 c2) as [Hdown' Hup']; [|done|].
    { intros x c0 x' c0' Hx. apply Hf. by right. }
    split.
    + intros Hc. destruct (Hdown' Hc) as [-> Hc1]. by destruct (Hdown Hc1) as [-> ->].
    + intros Hc. destruct (Hup' Hc) as [Hc1|Hne].
      * destruct (Hup Hc1) as [?|Hne]; [by left|]. right. congruence.
      * right. congruence.
Qed.

Lemma each_item_flag (f : value → bool → res (value * bool)) (d d' : dict) (c c' : bool) :
  (∀ k x c x' c', (k, x) ∈ d → f x c = Ok (x', c') →
                  (c' = false → x' = x ∧ c = false) ∧ (c' = true → c = true ∨ x' ≠ x)) →
  each_item f d c = Ok (d', c') →
  (c' = false → d' = d ∧ c = false) ∧ (c' = true → c = true ∨ d' ≠ d).
Proof.
  revert d' c c'. induction d as [|[k v] d IH]; intros d' c c' Hf; simpl.
  - intros [= <- <-]. split; [done | by left].
  - destruct (f v c) as [[v1 c1]|] eqn:Hv; simpl; [|done].
    destruct (each_item f d c1) as [[d1 c2]|] eqn:Hd; simpl; [|done].
    intros [= <- <-].
    destruct (Hf k v c v1 c1 ltac:(left) Hv) as [Hdown Hup].
    destruct (IH d1 c1 c2) as [Hdown' Hup']; [|done|].
    { intros k0 x c0 x' c0' Hx. apply (Hf k0). by right. }
    split.
    + intros Hc. destruct (Hdown' Hc) as [-> Hc1]. by destruct (Hdown Hc1) as [-> ->].
    + intros Hc. destruct (Hup' Hc) as [Hc1|Hne].
      * destruct (Hup Hc1) as [?|Hne]; [by left|]. right. congruence.
      * right. congruence.
Qed.

Lemma schema_visit_flag (fuel : nat) (v v' : value) (c c' : bool) :
  schema_visit fuel v c = Ok (v', c') →
  (c' = false → v' = v ∧ c = false) ∧ (c' = true → c = true ∨ v' ≠ v).
Proof.
  revert v v' c c'. induction fuel as [|fuel IH]; intros v v' c c'; [done|].
  destruct v as [| | | |l|d]; simpl schema_visit;
    try (intros [= <- <-]; split; [done | by left]).
  - destruct (each_element _ l c) as [[l' c1]|] eqn:Hl; [|done].
    unfold mbind, res_bind, bind. cbv beta iota. intros [= <- <-].
    destruct (each_element_flag _ _ _ _ _ ltac:(intros; by eapply IH) Hl) as [Hdown Hup].
    split.
    + intros Hc. by destruct (Hdown Hc) as [-> ->].
    + intros Hc. destruct (Hup Hc) as [?|Hne]; [by left|]. right. congruence.
  - destruct (each_item _ d c) as [[d' c1]|] eqn:Hd; [|done].
    unfold mbind, res_bind, bind. cbv beta iota. intros [= <- <-].
    assert (∀ k x c x' c', (k, x) ∈ d → schema_item (schema_visit fuel) x c = Ok (x', c') →
               (c' = false → x' = x ∧ c = false) ∧ (c' = true → c = true ∨ x' ≠ x)) as Hf.
    { intros k x c0 x' c0' _. unfold schema_item.
      destruct x as [| | |s| |]; try apply IH.
      destruct (rewrite_schema_string s) as [new|]; [|done].
      unfold mbind, res_bind, bind. cbv beta iota.
      case_bool_decide as Hnew; intros [= <- <-].
      - split; [done | by left].
      - split; [done|]. intros _. right. congruence. }
    destruct (each_item_flag _ _ _ _ _ Hf Hd) as [Hdown Hup].
    split.
    + intros Hc. by destruct (Hdown Hc) as [-> ->].
    + intros Hc. destruct (Hup Hc) as [?|Hne]; [by left|]. right. congruence.
Qed.

Lemma visit_image_down (d d1 : dict) (c : bool) :
  visit_image d c = Ok (d1, false) → d1 = d ∧ c = false.
Proof.
  unfold visit_image.
  destruct (get "image" d) as [[| | | | |img]|]; try by intros [= <- <-].
  destruct (get "repository" img) as [[| | |repo| |]|]; try by intros [= <- <-].
  destruct (rewrite_repository repo) as [[new|]|]; [done| |done].
  unfold mbind, res_bind, bind. cbv beta iota. by intros [= <- <-].
Qed.

Lemma each_element_down (f : value → bool → res (value * bool)) (l l' : list value)
    (c : bool) :
  (∀ x c x', x ∈ l → f x c = Ok (x', false) → x' = x ∧ c = false) →
  each_element f l c = Ok (l', false) → l' = l ∧ c = false.
Proof.
  revert l' c. induction l as [|v l IH]; intros l' c Hf; simpl.
  - by intros [= <- <-].
  - destruct (f v c) as [[v1 c1]|] eqn:Hv; simpl; [|done].
    destruct (each_element f l c1) as [[l1 c2]|] eqn:Hl; simpl; [|done].
    intros [= <- ->].
    destruct (IH l1 c1) as [-> ->]; [|done|].
    { intros x c0 x' Hx. apply Hf. by right. }
    by destruct (Hf v c v1 ltac:(left) Hv) as [-> ->].
Qed.

Lemma each_item_down (f : value → bool → res (value * bool)) (d d' : dict) (c : bool) :
  (∀ k x c x', (k, x) ∈ d → f x c = Ok (x', false) → x' = x ∧ c = false) →
  each_item f d c = Ok (d', false) → d' = d ∧ c = false.
Proof.
  revert d' c. induction d as [|[k v] d IH]; intros d' c Hf; simpl.
  - by intros [= <- <-].
  - destruct (f v c) as [[v1 c1]|] eqn:Hv; simpl; [|done].
    destruct (each_item f d c1) as [[d1 c2]|] eqn:Hd; simpl; [|done].
    intros [= <- ->].
    destruct (IH d1 c1) as [-> ->]; [|done|].
    { intros k0 x c0 x' Hx. eapply Hf. by right. }
    by destruct (Hf k v c v1 ltac:(left) Hv) as [-> ->].
Qed.

Lemma values_visit_down (fuel : nat) (v v' : value) (c : bool) :
  values_visit fuel v c = Ok (v', false) → v' = v ∧ c = false.
Proof.
  revert v v' c. induction fuel as [|fuel IH]; intros v v' c; [done|].
  destruct v as [| | | |l|d]; simpl values_visit; try by intros [= <- <-].
  - destruct (each_element _ l c) as [[l' c1]|] eqn:Hl; [|done].
    unfold mbind, res_bind, bind. cbv beta iota. intros [= <- ->].
    by destruct (each_element_down _ _ _ _ ltac:(intros; by eapply IH) Hl) as [-> ->].
  - destruct (visit_image d c) as [[d1 c1]|] eqn:Hi; [|done].
    unfold mbind, res_bind, bind. cbv beta iota.
    destruct (each_item _ d1 c1) as [[d' c2]|] eqn:Hd; [|done].
    cbv beta iota. intros [= <- ->].
    destruct (each_item_down _ _ _ _ ltac:(intros; by eapply IH) Hd) as [-> ->].
    by destruct (visit_image_down _ _ _ Hi) as [-> ->].
Qed.

End FlagFacts.

(** X5. A structural rewriter that reports no change has made none: the
    document that it returns with the flag down is the document that it
    was given, for the chart metadata, the values and the schema. No
    rewriting is lost because the file is not written. *)
Theorem no_change_reported_none_made (data data' : value) :
  (Migrate.update_chart_yaml_data data = Py.Ok (data', false) → data' = data)
  ∧ (Migrate.update_values_yaml_data data = Py.Ok (data', false) → data' = data)
  ∧ (Migrate.update_values_schema_json_data data = Py.Ok (data', false) → data' = data).
Proof.
  split_and!.
  - destruct data as [| | | | |d]; try by intros [= <-].
    intros (d1 & c1 & d3 & c3 & d4 & c4 & d6 & H1 & H3 & H4 & H6 & ->)
      %update_chart_yaml_data_steps.
    destruct (chart_tags_flag _ _ _ _ H6) as (_ & Hdown & _).
    destruct (Hdown eq_refl) as [-> ->].
    destruct (chart_sources_flag _ _ _ _ H4) as (_ & Hdown4 & _).
    destruct (Hdown4 eq_refl) as [-> ->].
    destruct (chart_home_flag _ _ _ _ H3) as (_ & Hdown3 & _).
    destruct (Hdown3 eq_refl) as [-> ->].
    destruct (chart_annotations_flag _ _ _ _ H1) as (_ & Hdown1 & _).
    by destruct (Hdown1 eq_refl) as [-> _].
  - intros H. by apply values_visit_down in H as [-> _].
  - intros H. apply schema_visit_flag in H as [Hdown _]. by destruct (Hdown eq_refl).
Qed.

Lemma no_change_reported_none_made_witness :
  VDict [("image" : str, VDict [("repository" : str, VStr "library/nginx")])]
  = VDict [("image" : str, VDict [("repository" : str, VStr "library/nginx")])].
Proof.
  destruct (no_change_reported_none_made
              (VDict [("image" : str, VDict [("repository" : str, VStr "library/nginx")])])
              (VDict [("image" : str, VDict [("repository" : str, VStr "library/nginx")])]))
    as (_ & Hvalues & _).
  apply Hvalues. vm_compute. reflexivity.
Defined.

(** X6. A change that the rewriter of the chart metadata or the rewriter
    of the schema reports is a change: the document that comes back with
    the flag raised differs from the document that went in. *)
Theorem change_reported_is_change (data data' : value) :
  (Migrate.update_chart_yaml_data data = Py.Ok (data', true) → data' ≠ data)
  ∧ (Migrate.update_values_schema_json_data data = Py.Ok (data', true) → data' ≠ data).
Proof.
  split.
  - destruct data as [| | | | |d]; try by intros [= <-].
    intros (d1 & c1 & d3 & c3 & d4 & c4 & d6 & H1 & H3 & H4 & H6 & ->)
      %update_chart_yaml_data_steps.
    destruct (chart_annotations_flag _ _ _ _ H1) as (_ & Hdown1 & Hup1).
    destruct (chart_home_flag _ _ _ _ H3) as (_ & Hdown3 & Hup3).
    destruct (chart_sources_flag _ _ _ _ H4) as (_ & Hdown4 & Hup4).
    destruct (chart_tags_flag _ _ _ _ H6) as (_ & _ & Hup6).
    intros [= Heq].
    destruct (Hup6 eq_refl) as [->|Hne].
    2:{ apply Hne. rewrite Heq.
        rewrite (chart_sources_frame _ _ _ _ _ H4) by done.
        rewrite (chart_home_frame _ _ _ _ _ H3) by done.
        by rewrite (chart_annotations_frame _ _ _ _ _ H1). }
    destruct (Hup4 eq_refl) as [->|Hne].
    2:{ apply Hne. rewrite <- (chart_tags_frame _ _ _ _ _ H6) by done. rewrite Heq.
        rewrite (chart_home_frame _ _ _ _ _ H3) by done.
        by rewrite (chart_annotations_frame _ _ _ _ _ H1). }
    destruct (Hup3 eq_refl) as [->|Hne].
    2:{ apply Hne. rewrite <- (chart_sources_frame _ _ _ _ _ H4) by done.
        rewrite <- (chart_tags_frame _ _ _ _ _ H6) by done. rewrite Heq.
        by rewrite (chart_annotations_frame _ _ _ _ _ H1). }
    destruct (Hup1 eq_refl) as [?|Hne]; [done|].
    apply Hne. rewrite <- (chart_home_frame _ _ _ _ _ H3) by done.
    rewrite <- (chart_sources_frame _ _ _ _ _ H4) by done.
    rewrite <- (chart_tags_frame _ _ _ _ _ H6) by done. by rewrite Heq.
  - intros H. apply schema_visit_flag in H as [_ Hup]. by destruct (Hup eq_refl).
Qed.

Lemma change_reported_is_change_witness :
  VDict [("tags" : str, VList [VStr "helmhubio-common"])]
  ≠ VDict [("tags" : str, VList [VStr "bitnami-common"])].
Proof.
  destruct (change_reported_is_change
              (VDict [("tags" : str, VList [VStr "bitnami-common"])])
              (VDict [("tags" : str, VList [VStr "helmhubio-common"])])) as [Hchart _].
  apply Hchart. vm_compute. reflexivity.
Defined.

(** X7. The rewriter of the chart metadata adds no key, removes none and
    keeps their order; and what the document has at a key other than
    [annotations], [home], [sources] and [tags] (its name, its version,
    its dependencies, its maintainers) is what it had. *)
Theorem update_chart_yaml_keeps_keys (d : Doc.dict) (data' : value) (changed : bool) :
  Migrate.update_chart_yaml_data (VDict d) = Py.Ok (data', changed) →
  ∃ d', data' = VDict d'
        ∧ d'.*1 = d.*1
        ∧ ∀ k : str, k ∉ strs ["annotations"; "home"; "sources"; "tags"] →
                     Doc.get k d' = Doc.get k d.
Proof.
  intros (d1 & c1 & d3 & c3 & d4 & c4 & d6 & H1 & H3 & H4 & H6 & ->)
    %update_chart_yaml_data_steps.
  exists d6. split; [done|]. split.
  - destruct (chart_annotations_flag _ _ _ _ H1) as (<- & _).
    destruct (chart_home_flag _ _ _ _ H3) as (<- & _).
    destruct (chart_sources_flag _ _ _ _ H4) as (<- & _).
    by destruct (chart_tags_flag _ _ _ _ H6) as (<- & _).
  - intros k Hk.
    assert (k ≠ "annotations" ∧ k ≠ "home" ∧ k ≠ "sources" ∧ k ≠ "tags")
      as (? & ? & ? & ?).
    { split_and!; intros ->; apply Hk; apply list_elem_of_In; simpl; auto. }
    rewrite (chart_tags_frame _ _ _ _ _ H6) by done.
    rewrite (chart_sources_frame _ _ _ _ _ H4) by done.
    rewrite (chart_home_frame _ _ _ _ _ H3) by done.
    by rewrite (chart_annotations_frame _ _ _ _ _ H1).
Qed.

Lemma update_chart_yaml_keeps_keys_witness :
  ∃ d', VDict [("name" : str, VStr "nginx"); ("tags" : str, VList [VStr "helmhubio-common"])]
        = VDict d'
        ∧ d'.*1 = strs ["name"; "tags"]
        ∧ ∀ k : str, k ∉ strs ["annotations"; "home"; "sources"; "tags"] →
                     Doc.get k d'
                     = Doc.get k [("name" : str, VStr "nginx");
                                  ("tags" : str, VList [VStr "bitnami-common"])].
Proof.
  apply (update_chart_yaml_keeps_keys
           [("name" : str, VStr "nginx"); ("tags" : str, VList [VStr "bitnami-common"])]
           _ true).
  vm_compute. reflexivity.
Defined.

Section ValuesFlag.

Import Py Re Doc Migrate.

Lemma rewrite_repository_branch (repo : str) :
  if takes_branch repo then ∃ new, rewrite_repository repo = Ok (Some new)
  else rewrite_repository repo = Ok None.
Proof.
  unfold takes_branch, registry_qualified, rewrite_repository.
  destruct (startswith repo "bitnami/") eqn:H1.
  { apply startswith_spec in H1 as [k ->]. rewrite after_bitnami. simpl. eauto. }
  destruct (startswith repo "bitnamilegacy/") eqn:H2.
  { apply startswith_spec in H2 as [k ->]. rewrite after_bitnamilegacy. simpl. eauto. }
  destruct (startswith repo "docker.io/helmhubio/"); [simpl; eauto|].
  destruct (startswith repo "docker.io/helmhubiolegacy/"); simpl; eauto.
Qed.

Lemma flat_map_set {A} (g : value → list A) (k : str) (x x' : value) (d : dict) :
  get k d = Some x → g x' = g x →
  flat_map (fun '(_, y) => g y) (set k x' d) = flat_map (fun '(_, y) => g y) d.
Proof.
  intros Hg Hx. induction d as [|[k' y] d IH]; [done|].
  simpl in Hg |- *. case_bool_decide.
  - injection Hg as ->. simpl. by rewrite Hx.
  - simpl. by rewrite IH.
Qed.

Lemma image_repositories_set (img : dict) (repo new : str) :
  get "repository" img = Some (VStr repo) →
  image_repositories (VDict (set "repository" (VStr new) img))
  = image_repositories (VDict img).
Proof.
  intros Hr. rewrite !image_repositories_dict.
  rewrite get_set_ne by done. f_equal.
  by apply (flat_map_set image_repositories _ _ _ _ Hr).
Qed.

(** The [image] branch raises the flag when it takes one of its four
    branches, and leaves the repositories below the items as they are. *)
Lemma visit_image_flag (d d1 : dict) (c c1 : bool) :
  visit_image d c = Ok (d1, c1) →
  ∃ head : list str,
    image_repositories (VDict d)
    = head ++ flat_map (fun '(_, x) => image_repositories x) d
    ∧ c1 = c || existsb takes_branch head
    ∧ flat_map (fun '(_, x) => image_repositories x) d1
      = flat_map (fun '(_, x) => image_repositories x) d.
Proof.
  unfold visit_image. rewrite image_repositories_dict. intros H.
  destruct (get "image" d) as [[| | | | |img]|] eqn:Hi;
    try (injection H as <- <-; exists []; by rewrite orb_false_r).
  destruct (get "repository" img) as [[| | |repo| |]|] eqn:Hr;
    try (injection H as <- <-; exists []; by rewrite orb_false_r).
  exists [repo]. split; [done|].
  pose proof (rewrite_repository_branch repo) as Hb.
  simpl existsb. destruct (takes_branch repo).
  - destruct Hb as [new Hnew]. rewrite Hnew in H.
    unfold mbind, res_bind, bind in H. cbv beta iota in H. injection H as <- <-.
    split; [by destruct c|].
    apply (flat_map_set image_repositories _ _ _ _ Hi).
    by apply (image_repositories_set img repo).
  - rewrite Hb in H. unfold mbind, res_bind, bind in H. cbv beta iota in H.
    injection H as <- <-. split; [by rewrite orb_false_r | done].
Qed.

Lemma each_element_or (f : value → bool → res (value * bool)) (g : value → list str)
    (l l' : list value) (c c' : bool) :
  (∀ x c x' c', x ∈ l → f x c = Ok (x', c') → c' = c || existsb takes_branch (g x)) →
  each_element f l c = Ok (l', c') → c' = c || existsb takes_branch (flat_map g l).
Proof.
  revert l' c c'. induction l as [|v l IH]; intros l' c c' Hf; simpl.
  - intros [= <- <-]. by rewrite orb_false_r.
  - destruct (f v c) as [[v1 c1]|] eqn:Hv; simpl; [|done].
    destruct (each_element f l c1) as [[l1 c2]|] eqn:Hl; simpl; [|done].
    intros [= <- <-]. rewrite existsb_app, orb_assoc.
    rewrite <- (Hf v c v1 c1 ltac:(left) Hv).
    apply (IH l1); [|done]. intros x c0 x' c0' Hx. apply Hf. by right.
Qed.

Lemma each_item_or (f : value → bool → res (value * bool)) (g : value → list str)
    (d d' : dict) (c c' : bool) :
  (∀ k x c x' c', (k, x) ∈ d → f x c = Ok (x', c') → c' = c || existsb takes_branch (g x)) →
  each_item f d c = Ok (d', c') →
  c' = c || existsb takes_branch (flat_map (fun '(_, x) => g x) d).
Proof.
  revert d' c c'. induction d as [|[k v] d IH]; intros d' c c' Hf; simpl.
  - intros [= <- <-]. by rewrite orb_false_r.
  - destruct (f v c) as [[v1 c1]|] eqn:Hv; simpl; [|done].
    destruct (each_item f d c1) as [[d1 c2]|] eqn:Hd; simpl; [|done].
    intros [= <- <-]. rewrite existsb_app, orb_assoc.
    rewrite <- (Hf k v c v1 c1 ltac:(left) Hv).
    apply (IH d1); [|done]. intros k0 x c0 x' c0' Hx. apply (Hf k0). by right.
Qed.

Lemma values_visit_flag (fuel : nat) (v v' : value) (c c' : bool) :
  values_visit fuel v c = Ok (v', c') →
  c' = c || existsb takes_branch (image_repositories v).
Proof.
  revert v v' c c'. induction fuel as [|fuel IH]; intros v v' c c'; [done|].
  destruct v as [| | | |l|d]; simpl values_visit;
    try (intros [= <- <-]; by rewrite orb_false_r).
  - destruct (each_element _ l c) as [[l' c1]|] eqn:Hl; [|done].
    unfold mbind, res_bind, bind. cbv beta iota. intros [= <- <-].
    apply (each_element_or _ image_repositories _ _ _ _ ltac:(intros; by eapply IH) Hl).
  - destruct (visit_image d c) as [[d1 c1]|] eqn:Hi; [|done].
    unfold mbind, res_bind, bind. cbv beta iota.
    destruct (each_item _ d1 c1) as [[d' c2]|] eqn:Hd; [|done].
    cbv beta iota. intros [= <- <-].
    destruct (visit_image_flag _ _ _ _ Hi) as (head & -> & -> & <-).
    rewrite existsb_app, orb_assoc.
    apply (each_item_or _ image_repositories _ _ _ _ ltac:(intros; by eapply IH) Hd).
Qed.

End ValuesFlag.

(** X8. The rewriter of the values returns on every document, and it
    reports a change exactly when, somewhere in the document, a mapping has
    an [image] whose [repository] starts with [bitnami/], [bitnamilegacy/],
    [docker.io/helmhubio/] or [docker.io/helmhubiolegacy/]. *)
Theorem update_values_yaml_changed_iff (data : value) :
  ∃ data',
    Migrate.update_values_yaml_data data
    = Py.Ok (data', existsb Migrate.takes_branch (Migrate.image_repositories data)).
Proof.
  destruct (update_values_yaml_data_total data) as [[data' changed] H].
  exists data'. rewrite H. by rewrite (values_visit_flag _ _ _ _ _ H).
Qed.

(* ================================================================== *)
(** * Further properties of a run *)
(* ================================================================== *)

Section RunMore.

Import Py Doc Migrate.

Variable yaml_load : str → option value.
Variable yaml_dump : value → str.
Variable json_loads : str → option value.
Variable json_dumps : value → str.
Variable root_parts : list str.

Lemma dom_insert_present (p : list str) (text : str) (fs : tree) :
  is_Some (fs !! p) → dom (<[p := text]> fs) = dom fs.
Proof. apply dom_insert_lookup_L. Qed.

Lemma update_chart_yaml_keeps : keeps_to_its_file (update_chart_yaml yaml_load yaml_dump).
Proof.
  intros p fs fs' c H. unfold update_chart_yaml, load_yaml in H.
  destruct (fs !! p) as [text|] eqn:Hp; [|by injection H as <- <-].
  simpl in H. destruct (yaml_load text) as [data|]; [|by injection H as <- <-].
  destruct (update_chart_yaml_data data) as [[data' [|]]|]; simpl in H; [| |done].
  - injection H as <- <-. unfold dump_yaml. split_and!; [|by apply dom_insert_present|done].
    intros q Hq. by rewrite lookup_insert_ne.
  - by injection H as <- <-.
Qed.

Lemma update_values_yaml_keeps : keeps_to_its_file (update_values_yaml yaml_load yaml_dump).
Proof.
  intros p fs fs' c H. unfold update_values_yaml, load_yaml in H.
  destruct (fs !! p) as [text|] eqn:Hp; [|by injection H as <- <-].
  simpl in H. destruct (yaml_load text) as [data|]; [|by injection H as <- <-].
  destruct (update_values_yaml_data data) as [[data' [|]]|]; simpl in H; [| |done].
  - injection H as <- <-. unfold dump_yaml. split_and!; [|by apply dom_insert_present|done].
    intros q Hq. by rewrite lookup_insert_ne.
  - by injection H as <- <-.
Qed.

Lemma update_values_schema_json_keeps :
  keeps_to_its_file (update_values_schema_json json_loads json_dumps).
Proof.
  intros p fs fs' c H. unfold update_values_schema_json in H.
  destruct (fs !! p) as [text|] eqn:Hp; [|by injection H as <- <-].
  simpl in H. destruct (json_loads text) as [data|]; [|by injection H as <- <-].
  destruct (update_values_schema_json_data data) as [[data' [|]]|]; simpl in H; [| |done].
  - injection H as <- <-. split_and!; [|by apply dom_insert_present|done].
    intros q Hq. by rewrite lookup_insert_ne.
  - by injection H as <- <-.
Qed.

Lemma safe_text_replace_keeps (readme_mode : list str → bool) :
  keeps_to_its_file
    (fun path fs => Ok (safe_text_replace root_parts path (readme_mode path) fs)).
Proof.
  intros p fs fs' c H. injection H as H. unfold safe_text_replace in H.
  destruct (fs !! p) as [orig|] eqn:Hp; [|by injection H as <- <-].
  case_bool_decide; injection H as <- <-; [done|].
  split_and!; [|by apply dom_insert_present|done].
  intros q Hq. by rewrite lookup_insert_ne.
Qed.

(** A loop over files with such a rewriter: it touches no file outside
    its list, creates and deletes none, and records every file that it
    has changed. *)
Lemma for_each_keeps_to_files (f : list str → tree → res (tree * bool))
    (paths : list (list str)) (fs fs' : tree) (cf cf' : list str) :
  keeps_to_its_file f →
  for_each root_parts f paths fs cf = Ok (fs', cf') →
  (∀ q, q ∉ paths → fs' !! q = fs !! q)
  ∧ dom fs' = dom fs
  ∧ (∀ x, x ∈ cf → x ∈ cf')
  ∧ (∀ q, fs' !! q ≠ fs !! q → path_str root_parts q ∈ cf').
Proof.
  intros Hf. revert fs cf. induction paths as [|p paths IH]; intros fs cf; simpl.
  - intros [= <- <-]. split_and!; done.
  - destruct (f p fs) as [[fs1 c]|] eqn:Hp; simpl; [|done].
    intros Hrest. destruct (Hf _ _ _ _ Hp) as (Hown & Hdom & Hfalse).
    destruct (IH _ _ Hrest) as (Hout & Hdom' & Hcf & Hrep).
    split_and!.
    + intros q Hq. rewrite Hout by (intros ?; apply Hq; by right).
      apply Hown. intros ->. apply Hq. left.
    + by rewrite Hdom'.
    + intros x Hx. apply Hcf. destruct c; [|done]. apply elem_of_app. by left.
    + intros q Hq. destruct (decide (fs' !! q = fs1 !! q)) as [Heq|Hne]; [|by apply Hrep].
      apply Hcf. destruct c.
      * destruct (decide (q = p)) as [->|Hqp]; [apply elem_of_app; right; left|].
        rewrite Heq, Hown in Hq; done.
      * rewrite Hfalse in Heq by done. done.
Qed.

Lemma elem_of_files (fs : tree) (p : list str) : p ∈ files fs ↔ is_Some (fs !! p).
Proof.
  unfold files. rewrite list_elem_of_fmap. split.
  - intros ([q text] & -> & H%elem_of_map_to_list). by eexists.
  - intros [text H]. exists (p, text). split; [done|]. by apply elem_of_map_to_list.
Qed.

Lemma elem_of_glob_chart_file (tl name : str) (fs : tree) (p : list str) :
  p ∈ glob_chart_file tl name fs ↔ is_Some (fs !! p) ∧ ∃ dir, p = [tl; dir; name].
Proof.
  unfold glob_chart_file. rewrite list_elem_of_In, filter_In, <- list_elem_of_In, elem_of_files.
  split; intros [Hp H]; (split; [done|]).
  - destruct p as [|t [|dir [|n [|]]]]; try done.
    apply andb_prop in H as [->%bool_decide_eq_true ->%bool_decide_eq_true]. eauto.
  - destruct H as [dir ->]. by rewrite !bool_decide_eq_true_2.
Qed.

Lemma elem_of_text_targets (fs : tree) (p : list str) :
  p ∈ text_targets root_parts fs ↔
  is_Some (fs !! p)
  ∧ (∀ part, part ∈ root_parts ++ dir_of p → part ∉ skipped_dirs)
  ∧ lower (suffix (name_of p)) ∈ text_suffixes
  ∧ name_of p ∉ structured_names.
Proof.
  unfold text_targets. rewrite list_elem_of_In, filter_In, <- list_elem_of_In, elem_of_files.
  rewrite !andb_true_iff, !negb_true_iff.
  assert (existsb (fun part => bool_decide (part ∈ skipped_dirs)) (root_parts ++ dir_of p)
          = false
          ↔ ∀ part, part ∈ root_parts ++ dir_of p → part ∉ skipped_dirs) as ->.
  { rewrite <- not_true_iff_false, existsb_exists. split.
    - intros Hskip part Hpart Hin. apply Hskip. exists part.
      split; [by apply list_elem_of_In | by apply bool_decide_eq_true].
    - intros Hskip (part & Hpart%list_elem_of_In & Hin%bool_decide_eq_true).
      by apply (Hskip part). }
  rewrite bool_decide_eq_true, bool_decide_eq_false. tauto.
Qed.

#[local] Arguments structural_pass : simpl never.
#[local] Arguments text_pass : simpl never.

Local Abbreviation pass_ok := (Migrate.pass_ok root_parts).

Lemma pass_ok_refl (touched : list str → Prop) (st : tree * list str) :
  pass_ok touched st st.
Proof. split_and!; done. Qed.

Lemma pass_ok_trans (touched : list str → Prop) (st1 st2 st3 : tree * list str) :
  pass_ok touched st1 st2 → pass_ok touched st2 st3 → pass_ok touched st1 st3.
Proof.
  intros (Hout & Hdom & Hcf & Hrep) (Hout' & Hdom' & Hcf' & Hrep'). split_and!.
  - intros q Hq. by rewrite Hout', Hout.
  - by rewrite Hdom'.
  - auto.
  - intros q Hq. destruct (decide (st3.1 !! q = st2.1 !! q)) as [Heq|Hne]; [|auto].
    apply Hcf', Hrep. by rewrite <- Heq.
Qed.

Lemma pass_ok_weaken (touched touched' : list str → Prop) (st st' : tree * list str) :
  (∀ q, touched q → touched' q) → pass_ok touched st st' → pass_ok touched' st st'.
Proof.
  intros Hsub (Hout & Hdom & Hcf & Hrep). split_and!; [|done..].
  intros q Hq. apply Hout. auto.
Qed.

Lemma for_each_pass_ok (f : list str → tree → res (tree * bool))
    (paths : list (list str)) (fs fs' : tree) (cf cf' : list str) :
  keeps_to_its_file f →
  for_each root_parts f paths fs cf = Ok (fs', cf') →
  pass_ok (fun q => q ∈ paths) (fs, cf) (fs', cf').
Proof.
  intros Hf H. destruct (for_each_keeps_to_files _ _ _ _ _ _ Hf H) as (? & ? & ? & ?).
  split_and!; simpl; [|done..]. intros q Hq. auto.
Qed.

Lemma glob_chart_file_dom (tl name : str) (fs fs' : tree) :
  dom fs' = dom fs → ∀ p, p ∈ glob_chart_file tl name fs' ↔ p ∈ glob_chart_file tl name fs.
Proof.
  intros Hdom p. rewrite !elem_of_glob_chart_file.
  by rewrite <- !elem_of_dom, Hdom.
Qed.

Lemma structural_pass_ok (tl : str) (st st' : tree * list str) :
  structural_pass yaml_load yaml_dump json_loads json_dumps root_parts tl st = Ok st' →
  pass_ok (chart_file_of tl st.1) st st'.
Proof.
  destruct st as [fs cf], st' as [fs' cf']. unfold structural_pass.
  destruct (for_each _ (update_chart_yaml _ _) _ fs cf) as [[fs1 cf1]|] eqn:H1; [|done].
  unfold mbind, res_bind, bind. cbv beta iota.
  destruct (for_each _ (update_values_yaml _ _) _ fs1 cf1) as [[fs2 cf2]|] eqn:H2; [|done].
  cbv beta iota. intros H3.
  apply for_each_pass_ok in H1; [|apply update_chart_yaml_keeps].
  apply for_each_pass_ok in H2; [|apply update_values_yaml_keeps].
  apply for_each_pass_ok in H3; [|apply update_values_schema_json_keeps].
  assert (dom fs1 = dom fs) as Hd1 by apply H1.
  assert (dom fs2 = dom fs) as Hd2.
  { destruct H2 as (_ & Hd2 & _). simpl in Hd2. by rewrite Hd2. }
  eapply pass_ok_trans; [|eapply pass_ok_trans].
  - eapply pass_ok_weaken; [|exact H1]. simpl.
    intros q [Hq [dir ->]]%elem_of_glob_chart_file.
    split; [done|]. exists dir, ("Chart.yaml" : str). split; [done|]. left.
  - eapply pass_ok_weaken; [|exact H2]. simpl.
    intros q [Hq [dir ->]]%(glob_chart_file_dom _ _ _ _ Hd1)%elem_of_glob_chart_file.
    split; [done|]. exists dir, ("values.yaml" : str). split; [done|]. right. left.
  - eapply pass_ok_weaken; [|exact H3]. simpl.
    intros q [Hq [dir ->]]%(glob_chart_file_dom _ _ _ _ Hd2)%elem_of_glob_chart_file.
    split; [done|]. exists dir, ("values.schema.json" : str). split; [done|].
    right. right. left.
Qed.

Lemma structural_passes_ok (tls : list str) (st st' : tree * list str) :
  foldl (fun st tl =>
           st ← st;
           structural_pass yaml_load yaml_dump json_loads json_dumps root_parts tl st)
        (Ok st) tls = Ok st' →
  pass_ok (fun q => ∃ tl, tl ∈ tls ∧ chart_file_of tl st.1 q) st st'.
Proof.
  revert st. induction tls as [|tl tls IH]; intros st; simpl.
  - intros [= <-]. apply pass_ok_refl.
  - destruct (structural_pass _ _ _ _ _ tl st) as [st1|e] eqn:Hpass.
    + intros Hfold. pose proof (structural_pass_ok _ _ _ Hpass) as H1.
      eapply pass_ok_trans.
      * eapply pass_ok_weaken; [|exact H1]. intros q Hq. exists tl. split; [left|done].
      * eapply pass_ok_weaken; [|apply (IH _ Hfold)].
        intros q (tl' & Hin & Hq & Hshape). exists tl'. split; [by right|].
        split; [|done]. destruct H1 as (_ & Hdom & _).
        by rewrite <- elem_of_dom, <- Hdom, elem_of_dom.
    + intros Hfold. exfalso. clear -Hfold.
      induction tls as [|tl' tls IH']; simpl in Hfold; [done|]. by apply IH'.
Qed.

Lemma text_pass_ok (st st' : tree * list str) :
  text_pass root_parts st = Ok st' →
  pass_ok (fun q => q ∈ text_targets root_parts st.1) st st'.
Proof.
  destruct st as [fs cf], st' as [fs' cf']. unfold text_pass. intros H.
  eapply for_each_pass_ok; [|exact H].
  apply (safe_text_replace_keeps
           (fun path => bool_decide (lower (suffix (name_of path)) = (".md" : str)))).
Qed.

(** The two passes of [main], without the renaming. *)
Lemma main_passes_ok (a : args) (fs : tree) (out : outcome) :
  rename_folders a && apply a = false →
  main yaml_load yaml_dump json_loads json_dumps root_parts a fs = Ok out →
  pass_ok (fun q => q ∈ text_targets root_parts fs
                    ∨ ∃ tl, tl ∈ strs ["bitnami"; "helmhubio"] ∧ chart_file_of tl fs q)
          (fs, []) (files_after out, changed_files out).
Proof.
  intros Hrename. unfold main.
  destruct (foldl _ _ _) as [[fs1 cf1]|] eqn:Hfold; [|done].
  unfold mbind, res_bind, bind. cbv beta iota.
  destruct (text_pass root_parts (fs1, cf1)) as [[fs2 cf2]|] eqn:Htext; [|done].
  cbv beta iota.
  assert ((if rename_folders a then rename_top_folder (apply a) fs2 else (fs2, false)).1
          = fs2) as Hfs.
  { destruct (rename_folders a); [|done]. simpl in Hrename. rewrite Hrename.
    unfold rename_top_folder. destruct (top_exists "bitnami" fs2); [|done].
    by destruct (top_exists "helmhubio" fs2). }
  destruct (if rename_folders a then _ else _) as [fs3 renamed]. simpl in Hfs. subst fs3.
  intros [= <-]. simpl.
  pose proof (structural_passes_ok _ _ _ Hfold) as H1.
  pose proof (text_pass_ok _ _ Htext) as H2.
  eapply pass_ok_trans.
  - eapply pass_ok_weaken; [|exact H1].
    intros q (tl & Hin & Hq). right. exists tl. split; [|exact Hq].
    apply list_elem_of_In, filter_In in Hin as [Hin _]. by apply list_elem_of_In.
  - eapply pass_ok_weaken; [|exact H2]. intros q Hq. left. cbn [fst] in Hq.
    apply elem_of_text_targets in Hq as (Hq & Hrest). apply elem_of_text_targets.
    split; [|done]. destruct H1 as (_ & Hdom & _). simpl in Hdom.
    by rewrite <- elem_of_dom, <- Hdom, elem_of_dom.
Qed.

Lemma chart_shaped_false_raises (data : value) :
  chart_shaped data = false →
  ∃ e, update_chart_yaml_data data = Raise e ∧ (e = AttributeError ∨ e = TypeError).
Proof.
  destruct data as [| | | | |d]; try done.
  unfold chart_shaped, update_chart_yaml_data. intros H.
  apply andb_false_iff in H as [Ha|Hd].
  - exists AttributeError. split; [|by left]. unfold chart_annotations.
    destruct (get "annotations" d) as [v|]; [|done].
    destruct v as [|b|q|s|l|a]; try done;
      apply negb_false_iff in Ha; by rewrite Ha.
  - destruct (chart_annotations d false) as [[d1 c1]|e] eqn:H1.
    + exists TypeError. split; [|by right].
      unfold mbind, res_bind, bind. cbv beta iota. unfold chart_dependencies.
      rewrite (chart_annotations_frame _ _ _ _ _ H1) by done.
      destruct (get "dependencies" d) as [v|]; [|done].
      destruct v as [|b|q|s|l|a]; try done;
        apply negb_false_iff in Hd; by rewrite Hd.
    + exists e. split; [done|]. left. revert H1. unfold chart_annotations.
      destruct (get "annotations" d) as [v|].
      2:{ unfold mbind, res_bind, bind. cbv beta iota. intros H1.
          change (get "images" []) with (@None value) in H1. done. }
      destruct (truthy v).
      2:{ unfold mbind, res_bind, bind. cbv beta iota. intros H1.
          change (get "images" []) with (@None value) in H1. done. }
      destruct v as [| | | | |a]; try by intros [= <-].
      unfold mbind, res_bind, bind. cbv beta iota.
      destruct (get "images" a) as [[| | |images|images|]|]; try done.
      * by case_bool_decide.
      * destruct (rewrite_strings _ images false) as [new c1].
        by destruct (items_differ new images).
Qed.

Lemma update_chart_yaml_raises (path : list str) (text : str) (data : value) (fs : tree) :
  fs !! path = Some text → yaml_load text = Some data → chart_shaped data = false →
  ∃ e, update_chart_yaml yaml_load yaml_dump path fs = Raise e.
Proof.
  intros Hfs Hload (e & He & _)%chart_shaped_false_raises.
  exists e. unfold update_chart_yaml, load_yaml. rewrite Hfs. simpl. rewrite Hload.
  by rewrite He.
Qed.

Lemma for_each_raises (f : list str → tree → res (tree * bool)) (p : list str) (text : str)
    (paths : list (list str)) (fs : tree) (cf : list str) :
  keeps_to_its_file f →
  (∀ fs, fs !! p = Some text → ∃ e, f p fs = Raise e) →
  p ∈ paths → fs !! p = Some text → ∃ e, for_each root_parts f paths fs cf = Raise e.
Proof.
  intros Hf Hp. revert fs cf. induction paths as [|q paths IH]; intros fs cf Hin Hfs.
  { by apply elem_of_nil in Hin. }
  simpl. destruct (decide (q = p)) as [->|Hne].
  { destruct (Hp fs Hfs) as [e ->]. by exists e. }
  destruct (f q fs) as [[fs1 c]|e] eqn:Hq; [|by exists e]. simpl.
  apply IH.
  - apply elem_of_cons in Hin as [->|Hin]; done.
  - destruct (Hf _ _ _ _ Hq) as (Hown & _). by rewrite Hown.
Qed.

Lemma structural_passes_raised (tls : list str) (e : exn) :
  foldl (fun st tl =>
           st ← st;
           structural_pass yaml_load yaml_dump json_loads json_dumps root_parts tl st)
        (Raise e) tls = Raise e.
Proof. induction tls as [|tl tls IH]; [done|]. simpl. apply IH. Qed.

Lemma structural_passes_raise (tls : list str) (tl dir text : str) (data : value)
    (st : tree * list str) :
  tl ∈ tls → st.1 !! [tl; dir; ("Chart.yaml" : str)] = Some text →
  yaml_load text = Some data → chart_shaped data = false →
  ∃ e, foldl (fun st tl =>
                st ← st;
                structural_pass yaml_load yaml_dump json_loads json_dumps root_parts tl st)
             (Ok st) tls = Raise e.
Proof.
  intros Hin Hfs Hload Hshape. revert st Hin Hfs.
  induction tls as [|tl0 tls IH]; intros st Hin Hfs; [by apply elem_of_nil in Hin|].
  simpl.
  destruct (structural_pass _ _ _ _ _ tl0 st) as [st1|e] eqn:Hpass.
  2:{ exists e. apply structural_passes_raised. }
  destruct (decide (tl0 = tl)) as [->|Hne].
  - exfalso. destruct st as [fs cf]. unfold structural_pass in Hpass.
    destruct (for_each_raises (update_chart_yaml yaml_load yaml_dump)
                [tl; dir; ("Chart.yaml" : str)] text
                (glob_chart_file tl "Chart.yaml" fs) fs cf) as [e He].
    + apply update_chart_yaml_keeps.
    + intros fs0 Hfs0. by eapply update_chart_yaml_raises.
    + apply elem_of_glob_chart_file. split; [by eexists | by exists dir].
    + done.
    + by rewrite He in Hpass.
  - apply IH.
    + apply elem_of_cons in Hin as [->|Hin]; done.
    + destruct (structural_pass_ok _ _ _ Hpass) as (Hout & _). rewrite Hout; [done|].
      intros (_ & dir' & name & [= -> _ _] & _). done.
Qed.

End RunMore.

(** X9. The rewriter of the chart metadata returns exactly on the
    documents of the expected shape. On a document whose [annotations] is a
    true value that is no mapping it raises [AttributeError], and on one
    whose [dependencies] is a true number or boolean [TypeError]; nothing
    in [update_chart_yaml] catches them. *)
Theorem update_chart_yaml_data_raises (data : value) :
  match Migrate.update_chart_yaml_data data with
  | Py.Ok _ => Migrate.chart_shaped data = true
  | Py.Raise e => Migrate.chart_shaped data = false ∧ (e = Py.AttributeError ∨ e = Py.TypeError)
  end.
Proof.
  destruct (Migrate.chart_shaped data) eqn:Hshape.
  - by destruct (update_chart_yaml_data_total data Hshape) as [r ->].
  - by destruct (chart_shaped_false_raises data Hshape) as (e & -> & He).
Qed.

(** X10. One malformed [Chart.yaml] aborts the run: when the metadata of
    a chart below [bitnami] or [helmhubio] parses to a document that is not
    of the expected shape, [main] raises, whatever the mode and whatever
    the other files are. *)
Theorem main_aborts_on_malformed_chart
    (yaml_load : str → option value) (yaml_dump : value → str)
    (json_loads : str → option value) (json_dumps : value → str)
    (root_parts : list str) (a : Migrate.args) (fs : tree)
    (tl dir text : str) (data : value) :
  tl ∈ strs ["bitnami"; "helmhubio"] →
  fs !! [tl; dir; ("Chart.yaml" : str)] = Some text →
  yaml_load text = Some data → Migrate.chart_shaped data = false →
  ∃ e, Migrate.main yaml_load yaml_dump json_loads json_dumps root_parts a fs = Py.Raise e.
Proof.
  intros Htl Hfs Hload Hshape. unfold Migrate.main.
  destruct (structural_passes_raise yaml_load yaml_dump json_loads json_dumps root_parts
              (List.filter (fun d => Migrate.top_exists d fs) (strs ["bitnami"; "helmhubio"]))
              tl dir text data (fs, [])) as [e He]; [|done..|].
  - apply list_elem_of_In, filter_In. split; [by apply list_elem_of_In|].
    unfold Migrate.top_exists. apply existsb_exists.
    exists [tl; dir; ("Chart.yaml" : str)]. split.
    + apply list_elem_of_In, elem_of_files. by eexists.
    + by apply bool_decide_eq_true.
  - exists e. by rewrite He.
Qed.

Lemma main_aborts_on_malformed_chart_witness :
  ∃ e,
    Migrate.main (fun _ => Some (VDict [("annotations" : str, VStr "none")]))
      (fun _ => []) (fun _ => None) (fun _ => []) (strs ["srv"; "charts"])
      {| Migrate.apply := false; Migrate.rename_folders := false |}
      {[ strs ["bitnami"; "nginx"; "Chart.yaml"] := ("annotations: none" : str) ]}
    = Py.Raise e.
Proof.
  apply (main_aborts_on_malformed_chart _ _ _ _ _ _ _ "bitnami" "nginx" "annotations: none"
           (VDict [("annotations" : str, VStr "none")])).
  - left.
  - vm_compute. reflexivity.
  - reflexivity.
  - reflexivity.
Defined.

(** X11. A run that renames nothing creates no file and deletes none, and
    its report is complete: every file whose content after the run is not
    its content before is in the list of changed files. *)
Theorem main_reports_every_change
    (yaml_load : str → option value) (yaml_dump : value → str)
    (json_loads : str → option value) (json_dumps : value → str)
    (root_parts : list str) (a : Migrate.args) (fs : tree) (out : Migrate.outcome) :
  Migrate.rename_folders a && Migrate.apply a = false →
  Migrate.main yaml_load yaml_dump json_loads json_dumps root_parts a fs = Py.Ok out →
  dom (Migrate.files_after out) = dom fs
  ∧ ∀ path, Migrate.files_after out !! path ≠ fs !! path →
            Migrate.path_str root_parts path ∈ Migrate.changed_files out.
Proof.
  intros Hrename Hmain.
  destruct (main_passes_ok _ _ _ _ _ _ _ _ Hrename Hmain) as (_ & Hdom & _ & Hrep).
  split; [exact Hdom | exact Hrep].
Qed.

Lemma main_reports_every_change_witness :
  let fs : tree :=
    {[ strs ["README.md"] := ("image: docker.io/bitnami/nginx" : str);
       strs ["LICENSE"] := ("Apache" : str) ]} in
  match Migrate.main (fun _ => None) (fun _ => []) (fun _ => None) (fun _ => [])
          (strs ["srv"; "charts"])
          {| Migrate.apply := true; Migrate.rename_folders := false |} fs with
  | Py.Ok out =>
      dom (Migrate.files_after out) = dom fs
      ∧ ∀ path, Migrate.files_after out !! path ≠ fs !! path →
                Migrate.path_str (strs ["srv"; "charts"]) path ∈ Migrate.changed_files out
  | Py.Raise _ => False
  end.
Proof.
  intros fs.
  destruct (Migrate.main _ _ _ _ _ _ fs) as [out|e] eqn:Hmain.
  - eapply main_reports_every_change; [|exact Hmain]. reflexivity.
  - vm_compute in Hmain. discriminate Hmain.
Defined.

(** X12. A run that renames nothing leaves the other files alone: a file
    whose name is none of [Chart.yaml], [values.yaml] and
    [values.schema.json] keeps its content when its suffix is not one of the
    text suffixes, or when a directory on its path, the root included, is
    [.git] or [.venv]. *)
Theorem main_leaves_other_files
    (yaml_load : str → option value) (yaml_dump : value → str)
    (json_loads : str → option value) (json_dumps : value → str)
    (root_parts : list str) (a : Migrate.args) (fs : tree) (out : Migrate.outcome)
    (path : list str) :
  Migrate.rename_folders a && Migrate.apply a = false →
  Migrate.main yaml_load yaml_dump json_loads json_dumps root_parts a fs = Py.Ok out →
  Migrate.name_of path ∉ Migrate.structured_names →
  (Py.lower (Migrate.suffix (Migrate.name_of path)) ∉ Migrate.text_suffixes
   ∨ ∃ part, part ∈ root_parts ++ Migrate.dir_of path ∧ part ∈ Migrate.skipped_dirs) →
  Migrate.files_after out !! path = fs !! path.
Proof.
  intros Hrename Hmain Hname Hskip.
  destruct (main_passes_ok _ _ _ _ _ _ _ _ Hrename Hmain) as (Hout & _).
  apply Hout. intros [Htext|(tl & _ & _ & dir & name & -> & Hin)].
  - apply elem_of_text_targets in Htext as (_ & Hparts & Hsuf & _).
    destruct Hskip as [Hskip|(part & Hpart & Hin)]; [done|]. by apply (Hparts part).
  - by apply Hname.
Qed.

Lemma main_leaves_other_files_witness :
  let fs : tree :=
    {[ strs ["README.md"] := ("image: docker.io/bitnami/nginx" : str);
       strs ["docs"; "bitnami.png"] := ("docker.io/bitnami/nginx" : str) ]} in
  match Migrate.main (fun _ => None) (fun _ => []) (fun _ => None) (fun _ => [])
          (strs ["srv"; "charts"])
          {| Migrate.apply := true; Migrate.rename_folders := false |} fs with
  | Py.Ok out =>
      Migrate.files_after out !! strs ["docs"; "bitnami.png"]
      = fs !! strs ["docs"; "bitnami.png"]
  | Py.Raise _ => False
  end.
Proof.
  intros fs.
  destruct (Migrate.main _ _ _ _ _ _ fs) as [out|e] eqn:Hmain.
  - eapply main_leaves_other_files; [|exact Hmain| |]; [reflexivity| |].
    + vm_compute. intros H. apply list_elem_of_In in H. simpl in H. intuition discriminate.
    + left. vm_compute. intros H. apply list_elem_of_In in H. simpl in H.
      intuition discriminate.
  - vm_compute in Hmain. discriminate Hmain.
Defined.

Section RenameFacts.

Import Py Doc Migrate.

Lemma top_exists_false (name : str) (fs : tree) (p : list str) :
  top_exists name fs = false → is_Some (fs !! p) → head p ≠ Some name.
Proof.
  unfold top_exists. rewrite <- not_true_iff_false, existsb_exists.
  intros H Hp Hhead. apply H. exists p. split.
  - by apply list_elem_of_In, elem_of_files.
  - by apply bool_decide_eq_true.
Qed.

(** The path of a file after the renaming of the top folder. *)
Lemma rename_top_folder_lookup (fs : tree) :
  top_exists "bitnami" fs = true → top_exists "helmhubio" fs = false →
  ∃ fs',
    rename_top_folder true fs = (fs', true)
    ∧ ∀ q c,
        fs' !! q = Some c ↔
        ∃ p, fs !! p = Some c
             ∧ q = match p with
                   | t :: p' => if bool_decide (t = ("bitnami" : str))
                                then ("helmhubio" : str) :: p' else p
                   | [] => p
                   end.
Proof.
  intros Hold Hnew. unfold rename_top_folder. rewrite Hold, Hnew. cbn [negb].
  eexists. split; [reflexivity|]. intros q c.
  rewrite <- elem_of_list_to_map.
  - rewrite list_elem_of_fmap. split.
    + intros ([p c'] & Heq & Hin%elem_of_map_to_list). exists p.
      destruct p as [|t p']; [by injection Heq as -> ->|].
      case_bool_decide; by injection Heq as -> ->.
    + intros (p & Hp & ->). exists (p, c). split; [|by apply elem_of_map_to_list].
      destruct p as [|t p']; [done|]. by case_bool_decide.
  - rewrite <- list_fmap_compose.
    assert (∀ x : list str * str,
               ((fun '(p, c) =>
                   match p with
                   | t :: p' => if bool_decide (t = ("bitnami" : str))
                                then (("helmhubio" : str) :: p', c) else (p, c)
                   | [] => (p, c)
                   end) x).1
               = match x.1 with
                 | t :: p' => if bool_decide (t = ("bitnami" : str))
                              then ("helmhubio" : str) :: p' else x.1
                 | [] => x.1
                 end) as Hfst.
    { intros [[|t p'] c0]; [done|]. simpl. by case_bool_decide. }
    rewrite (list_fmap_ext _ _ _ (fun _ x _ => Hfst x)).
    change (NoDup (((fun p : list str =>
                       match p with
                       | t :: p' => if bool_decide (t = ("bitnami" : str))
                                    then ("helmhubio" : str) :: p' else p
                       | [] => p
                       end) ∘ fst) <$> map_to_list fs)).
    rewrite list_fmap_compose. apply NoDup_fmap_2_strong; [|apply NoDup_fst_map_to_list].
    intros p1 p2 Hp1 Hp2.
    assert (∀ p, p ∈ (map_to_list fs).*1 → head p ≠ Some ("helmhubio" : str)) as Hhead.
    { intros p Hp. apply (top_exists_false _ fs); [done|].
      apply list_elem_of_fmap in Hp as ([p' c'] & -> & Hin%elem_of_map_to_list).
      by eexists. }
    pose proof (Hhead _ Hp1) as H1. pose proof (Hhead _ Hp2) as H2.
    destruct p1 as [|t1 p1], p2 as [|t2 p2]; try done.
    + by case_bool_decide.
    + by case_bool_decide.
    + simpl in H1, H2. repeat case_bool_decide; subst; try congruence.
      * intros [= <- <-]. done.
      * intros [= -> ->]. done.
Qed.

End RenameFacts.

(** X13. The renaming of the top folder, when [bitnami] is there and
    [helmhubio] is not: an applying call moves every file below [bitnami]
    to the same place below [helmhubio] with its content, leaves nothing
    below [bitnami], and leaves every other file where it is; a dry call
    answers [True] as well and moves nothing. *)
Theorem rename_top_folder_moves (fs : tree) :
  Migrate.top_exists "bitnami" fs = true → Migrate.top_exists "helmhubio" fs = false →
  ∃ fs',
    Migrate.rename_top_folder true fs = (fs', true)
    ∧ Migrate.rename_top_folder false fs = (fs, true)
    ∧ (∀ rest, fs' !! (("helmhubio" : str) :: rest) = fs !! (("bitnami" : str) :: rest))
    ∧ (∀ rest, fs' !! (("bitnami" : str) :: rest) = None)
    ∧ (∀ p, head p ≠ Some ("bitnami" : str) → head p ≠ Some ("helmhubio" : str) →
            fs' !! p = fs !! p).
Proof.
  intros Hold Hnew.
  destruct (rename_top_folder_lookup fs Hold Hnew) as (fs' & Hfs' & Hlookup).
  exists fs'. split; [done|]. split.
  { unfold Migrate.rename_top_folder. by rewrite Hold, Hnew. }
  split_and!.
  - intros rest. apply option_eq. intros c. rewrite Hlookup. split.
    + intros (p & Hp & Hq). destruct p as [|t p']; [done|].
      case_bool_decide as Ht.
      * injection Hq as ->. by rewrite <- Ht.
      * injection Hq as <- <-.
        by destruct (top_exists_false _ _ _ Hnew (mk_is_Some _ _ Hp)).
    + intros Hp. exists (("bitnami" : str) :: rest). split; [done|].
      by rewrite bool_decide_eq_true_2.
  - intros rest. apply eq_None_not_Some. intros [c (p & Hp & Hq)%Hlookup].
    destruct p as [|t p']; [done|]. case_bool_decide; [done|]. by injection Hq as <- <-.
  - intros p Hb Hh. apply option_eq. intros c. rewrite Hlookup. split.
    + intros (p0 & Hp & ->). destruct p0 as [|t p']; [done|].
      case_bool_decide; [by destruct Hh | done].
    + intros Hp. exists p. split; [done|]. destruct p as [|t p']; [done|].
      case_bool_decide; [subst; by destruct Hb | done].
Qed.

Lemma rename_top_folder_moves_witness :
  ∃ fs',
    Migrate.rename_top_folder true
      {[ strs ["bitnami"; "nginx"; "Chart.yaml"] := ("name: nginx" : str);
         strs ["README.md"] := ("charts" : str) ]}
    = (fs', true)
    ∧ fs' !! strs ["helmhubio"; "nginx"; "Chart.yaml"] = Some ("name: nginx" : str)
    ∧ fs' !! strs ["bitnami"; "nginx"; "Chart.yaml"] = None
    ∧ fs' !! strs ["README.md"] = Some ("charts" : str).
Proof.
  destruct (rename_top_folder_moves
              {[ strs ["bitnami"; "nginx"; "Chart.yaml"] := ("name: nginx" : str);
                 strs ["README.md"] := ("charts" : str) ]})
    as (fs' & Hfs' & _ & Hmoved & Hgone & Hkept).
  - vm_compute. reflexivity.
  - vm_compute. reflexivity.
  - exists fs'. split; [done|]. split_and!.
    + etransitivity; [exact (Hmoved (strs ["nginx"; "Chart.yaml"]))|].
      vm_compute. reflexivity.
    + exact (Hgone (strs ["nginx"; "Chart.yaml"])).
    + etransitivity; [apply (Hkept (strs ["README.md"])); done|].
      vm_compute. reflexivity.
Defined.
